(** * hackJS: extraction and scoping pipeline

    A shallow embedding of the core of [hackJS.go]: the pattern extractors
    ([extractJSFiles], [extractLinks], [extractSubdomains]), the scope
    filters ([filterLinks], [filterSubdomains]), the sensitive-data matcher
    ([findSensitiveData]), the aggregator ([removeDuplicates], [processURL])
    and the domain utilities ([cleanURL], [extractDomain]).

    Go strings are byte sequences and are modelled by [string] (a list of
    8-bit [ascii] values).  The Go packages the program leans on
    ([strings], [sort], [regexp], [net/url]) are modelled in modules of the
    same names, each covering the functions the program calls. *)

From Stdlib Require Import Ascii Bool Arith Lia List Permutation.
From Stdlib Require String.
From stdpp Require Import gmap strings sorting.
Import ListNotations.

(** ** Bytes *)

Definition byte_in (lo hi c : ascii) : bool :=
  (nat_of_ascii lo <=? nat_of_ascii c) && (nat_of_ascii c <=? nat_of_ascii hi).

Definition is_lower (c : ascii) : bool := byte_in "a" "z" c.
Definition is_upper (c : ascii) : bool := byte_in "A" "Z" c.
Definition is_digit (c : ascii) : bool := byte_in "0" "9" c.
Definition is_alnum (c : ascii) : bool := is_lower c || is_upper c || is_digit c.

Definition dquote : ascii := "034".
Definition newline : ascii := "010".

(** [one_of cs c]: the byte [c] occurs in [cs]. *)
Fixpoint one_of (cs : string) (c : ascii) : bool :=
  match cs with
  | EmptyString => false
  | String d cs' => Ascii.eqb c d || one_of cs' c
  end.

(** ** Package [strings] *)

Module strings.

(** [strings.HasPrefix(s, prefix)] *)
Definition HasPrefix (s prefix : string) : bool := String.prefix prefix s.

(** [strings.HasSuffix(s, suffix)]:
    [len(s) >= len(suffix) && s[len(s)-len(suffix):] == suffix] *)
Definition HasSuffix (s suffix : string) : bool :=
  (String.length suffix <=? String.length s) &&
  String.eqb
    (String.substring (String.length s - String.length suffix)
                      (String.length suffix) s)
    suffix.

(** [strings.Contains(s, substr)]: [substr] occurs at some offset of [s]. *)
Fixpoint Contains (s substr : string) : bool :=
  String.prefix substr s ||
  match s with
  | EmptyString => false
  | String _ s' => Contains s' substr
  end.

(** [strings.Split(s, sep)] for a one-byte separator, the only form the
    program uses (newline and dot): the pieces between the separators,
    one more than there are separators. *)
Fixpoint Split (s : string) (sep : ascii) : list string :=
  match s with
  | EmptyString => [EmptyString]
  | String c s' =>
      if Ascii.eqb c sep then EmptyString :: Split s' sep
      else match Split s' sep with
           | [] => [String c EmptyString]
           | p :: ps => String c p :: ps
           end
  end.

(** [strings.Cut(s, sep)] for a one-byte separator: the text before and
    after the first separator, and whether there was one. *)
Fixpoint Cut (s : string) (sep : ascii) : string * string * bool :=
  match s with
  | EmptyString => (EmptyString, EmptyString, false)
  | String c s' =>
      if Ascii.eqb c sep then (EmptyString, s', true)
      else let '(before, after, found) := Cut s' sep in
           (String c before, after, found)
  end.

(** [strings.LastIndex(s, sep)] for a one-byte separator; [None] is -1. *)
Fixpoint LastIndex (s : string) (sep : ascii) : option nat :=
  match s with
  | EmptyString => None
  | String c s' =>
      match LastIndex s' sep with
      | Some i => Some (S i)
      | None => if Ascii.eqb c sep then Some 0 else None
      end
  end.

(** [strings.Count(s, sep)] for a one-byte separator. *)
Fixpoint Count (s : string) (sep : ascii) : nat :=
  match s with
  | EmptyString => 0
  | String c s' => (if Ascii.eqb c sep then 1 else 0) + Count s' sep
  end.

(** [strings.ToLower] on ASCII letters (used on URL schemes, which hold
    ASCII letters, digits, [+], [-] and [.] only). *)
Definition lower_byte (c : ascii) : ascii :=
  if is_upper c then ascii_of_nat (nat_of_ascii c + 32) else c.

Fixpoint ToLower (s : string) : string :=
  match s with
  | EmptyString => EmptyString
  | String c s' => String (lower_byte c) (ToLower s')
  end.

(** [s[i:]] and [s[:i]] *)
Definition from (i : nat) (s : string) : string :=
  String.substring i (String.length s - i) s.
Definition upto (i : nat) (s : string) : string := String.substring 0 i s.

End strings.

(** ** Package [sort] *)

Module sort.

(** [sort.Strings(x)] sorts in increasing byte-wise order.  Strings that
    compare equal are identical, so the outcome does not depend on the
    sorting algorithm; a merge sort stands for it. *)
Definition Strings (x : list string) : list string := merge_sort String.le x.

End sort.

(** ** Package [net/url]

    [url.Parse], [URL.String] and [URL.Hostname], after the Go
    standard library (the version with [RawFragment] and [OmitHost]).
    A parse error is [None]. *)

Module url.

Inductive encoding :=
| encodePath | encodePathSegment | encodeHost | encodeZone
| encodeUserPassword | encodeQueryComponent | encodeFragment.

Definition is_host_mode (mode : encoding) : bool :=
  match mode with encodeHost | encodeZone => true | _ => false end.

Record Userinfo := {
  username : string;
  password : string;
  passwordSet : bool
}.

Record URL := {
  Scheme : string;
  Opaque : string;
  User : option Userinfo;
  Host : string;
  Path : string;
  RawPath : string;
  OmitHost : bool;
  ForceQuery : bool;
  RawQuery : string;
  Fragment : string;
  RawFragment : string
}.

Definition ishex (c : ascii) : bool :=
  is_digit c || byte_in "a" "f" c || byte_in "A" "F" c.

Definition unhex (c : ascii) : nat :=
  if is_digit c then nat_of_ascii c - 48
  else if byte_in "a" "f" c then nat_of_ascii c - 97 + 10
  else if byte_in "A" "F" c then nat_of_ascii c - 65 + 10
  else 0.

(** [shouldEscape(c, mode)] *)
Definition shouldEscape (c : ascii) (mode : encoding) : bool :=
  if is_alnum c then false
  else if is_host_mode mode &&
          (one_of "!$&'()*+,;=:[]<>" c || Ascii.eqb c dquote) then false
  else if one_of "-_.~" c then false
  else
    let otherwise :=
      match mode with
      | encodeFragment => negb (one_of "!()*" c)
      | _ => true
      end in
    if one_of "$&+,/:;=?@" c then
      match mode with
      | encodePath => Ascii.eqb c "?"
      | encodePathSegment => one_of "/;,?" c
      | encodeUserPassword => one_of "@/?:" c
      | encodeQueryComponent => true
      | encodeFragment => false
      | encodeHost | encodeZone => otherwise
      end
    else otherwise.

(** [unescape(s, mode)]: checks the escapes and decodes them. *)
Fixpoint unescape (s : string) (mode : encoding) : option string :=
  match s with
  | EmptyString => Some EmptyString
  | String c s1 =>
      if Ascii.eqb c "%" then
        match s1 with
        | String h1 (String h2 s3) =>
            let v := unhex h1 * 16 + unhex h2 in
            let is25 := Ascii.eqb h1 "2" && Ascii.eqb h2 "5" in
            if negb (ishex h1 && ishex h2) then None
            else if match mode with
                    | encodeHost => (unhex h1 <? 8) && negb is25
                    | encodeZone =>
                        negb is25 && negb (v =? 32) &&
                        shouldEscape (ascii_of_nat v) encodeHost
                    | _ => false
                    end then None
            else option_map (String (ascii_of_nat v)) (unescape s3 mode)
        | _ => None
        end
      else if Ascii.eqb c "+" then
        option_map
          (String (match mode with encodeQueryComponent => " " | _ => "+" end)%char)
          (unescape s1 mode)
      else if is_host_mode mode && (nat_of_ascii c <? 128) &&
              shouldEscape c encodeHost then None
      else option_map (String c) (unescape s1 mode)
  end.

Definition upperhex (n : nat) : ascii :=
  if n <? 10 then ascii_of_nat (48 + n) else ascii_of_nat (65 + (n - 10)).

(** [escape(s, mode)] *)
Fixpoint escape (s : string) (mode : encoding) : string :=
  match s with
  | EmptyString => EmptyString
  | String c s' =>
      if shouldEscape c mode then
        match mode with
        | encodeQueryComponent =>
            if Ascii.eqb c " " then String "+" (escape s' mode)
            else String "%" (String (upperhex (nat_of_ascii c / 16))
                   (String (upperhex (nat_of_ascii c mod 16)) (escape s' mode)))
        | _ => String "%" (String (upperhex (nat_of_ascii c / 16))
                 (String (upperhex (nat_of_ascii c mod 16)) (escape s' mode)))
        end
      else String c (escape s' mode)
  end.

(** [validEncoded(s, mode)] *)
Fixpoint validEncoded (s : string) (mode : encoding) : bool :=
  match s with
  | EmptyString => true
  | String c s' =>
      (one_of "!$&'()*+,;=:@[]%" c || negb (shouldEscape c mode)) &&
      validEncoded s' mode
  end.

(** [getScheme(rawURL)]: the scheme and the text after its colon. *)
Fixpoint getScheme_from (i : nat) (s rawURL : string) : option (string * string) :=
  match s with
  | EmptyString => Some (EmptyString, rawURL)
  | String c s' =>
      if is_lower c || is_upper c then getScheme_from (S i) s' rawURL
      else if is_digit c || one_of "+-." c then
        if i =? 0 then Some (EmptyString, rawURL)
        else getScheme_from (S i) s' rawURL
      else if Ascii.eqb c ":" then
        if i =? 0 then None else Some (strings.upto i rawURL, s')
      else Some (EmptyString, rawURL)
  end.

Definition getScheme (rawURL : string) : option (string * string) :=
  getScheme_from 0 rawURL rawURL.

Fixpoint stringContainsCTLByte (s : string) : bool :=
  match s with
  | EmptyString => false
  | String b s' =>
      (nat_of_ascii b <? 32) || (nat_of_ascii b =? 127) ||
      stringContainsCTLByte s'
  end.

(** [validOptionalPort(port)]: empty, or a colon and digits. *)
Fixpoint all_digits (s : string) : bool :=
  match s with
  | EmptyString => true
  | String b s' => is_digit b && all_digits s'
  end.

Definition validOptionalPort (port : string) : bool :=
  match port with
  | EmptyString => true
  | String c digits => Ascii.eqb c ":" && all_digits digits
  end.

(** [parseHost(host)] *)
Definition parseHost (host : string) : option string :=
  let plain := unescape host encodeHost in
  if strings.HasPrefix host "[" then
    match strings.LastIndex host "]" with
    | None => None
    | Some i =>
        if negb (validOptionalPort (strings.from (S i) host)) then None
        else
          match String.index 0 "%25" (strings.upto i host) with
          | Some zone =>
              match unescape (strings.upto zone host) encodeHost,
                    unescape (String.substring zone (i - zone) host) encodeZone,
                    unescape (strings.from i host) encodeHost with
              | Some host1, Some host2, Some host3 =>
                  Some (host1 +:+ host2 +:+ host3)
              | _, _, _ => None
              end
          | None => plain
          end
    end
  else
    match strings.LastIndex host ":" with
    | Some i =>
        if negb (validOptionalPort (strings.from i host)) then None else plain
    | None => plain
    end.

(** [validUserinfo(s)] *)
Fixpoint validUserinfo (s : string) : bool :=
  match s with
  | EmptyString => true
  | String r s' =>
      (is_alnum r || one_of "-._:~!$&'()*+,;=%@" r) && validUserinfo s'
  end.

(** [parseAuthority(authority)] *)
Definition parseAuthority (authority : string) : option (option Userinfo * string) :=
  match strings.LastIndex authority "@" with
  | None =>
      match parseHost authority with
      | Some host => Some (None, host)
      | None => None
      end
  | Some i =>
      match parseHost (strings.from (S i) authority) with
      | None => None
      | Some host =>
          let userinfo := strings.upto i authority in
          if negb (validUserinfo userinfo) then None
          else if negb (strings.Contains userinfo ":") then
            match unescape userinfo encodeUserPassword with
            | Some name =>
                Some (Some {| username := name; password := "";
                              passwordSet := false |}, host)
            | None => None
            end
          else
            let '(name, pass, _) := strings.Cut userinfo ":" in
            match unescape name encodeUserPassword,
                  unescape pass encodeUserPassword with
            | Some name', Some pass' =>
                Some (Some {| username := name'; password := pass';
                              passwordSet := true |}, host)
            | _, _ => None
            end
      end
  end.

(** What [setPath(p)] stores in [Path] and [RawPath]. *)
Definition setPath (p : string) : option (string * string) :=
  match unescape p encodePath with
  | None => None
  | Some path =>
      if String.eqb p (escape path encodePath) then Some (path, EmptyString)
      else Some (path, p)
  end.

(** What [setFragment(f)] stores in [Fragment] and [RawFragment]. *)
Definition setFragment (f : string) : option (string * string) :=
  match unescape f encodeFragment with
  | None => None
  | Some frag =>
      if String.eqb f (escape frag encodeFragment) then Some (frag, EmptyString)
      else Some (frag, f)
  end.

(** [parse(rawURL, viaRequest)] with [viaRequest] false, as [Parse]
    calls it on the text before the fragment. *)
Definition parse (rawURL : string) : option URL :=
  if stringContainsCTLByte rawURL then None
  else if String.eqb rawURL "*" then
    Some {| Scheme := ""; Opaque := ""; User := None; Host := ""; Path := "*";
            RawPath := ""; OmitHost := false; ForceQuery := false;
            RawQuery := ""; Fragment := ""; RawFragment := "" |}
  else
    match getScheme rawURL with
    | None => None
    | Some (scheme0, rest0) =>
        let scheme := strings.ToLower scheme0 in
        let '(rest1, rawQuery, forceQuery) :=
          if strings.HasSuffix rest0 "?" && (strings.Count rest0 "?" =? 1)
          then (strings.upto (String.length rest0 - 1) rest0, EmptyString, true)
          else let '(before, after, _) := strings.Cut rest0 "?" in
               (before, after, false) in
        let hasScheme := negb (String.eqb scheme "") in
        if negb (strings.HasPrefix rest1 "/") && hasScheme then
          (* rootless paths are opaque *)
          Some {| Scheme := scheme; Opaque := rest1; User := None; Host := "";
                  Path := ""; RawPath := ""; OmitHost := false;
                  ForceQuery := forceQuery; RawQuery := rawQuery;
                  Fragment := ""; RawFragment := "" |}
        else if negb (strings.HasPrefix rest1 "/") &&
                strings.Contains (fst (fst (strings.Cut rest1 "/"))) ":" then
          (* first path segment in URL cannot contain colon *)
          None
        else
          let finish (user : option Userinfo) (host : string)
                     (omitHost : bool) (rest : string) : option URL :=
            match setPath rest with
            | None => None
            | Some (path, rawPath) =>
                Some {| Scheme := scheme; Opaque := ""; User := user;
                        Host := host; Path := path; RawPath := rawPath;
                        OmitHost := omitHost; ForceQuery := forceQuery;
                        RawQuery := rawQuery; Fragment := "";
                        RawFragment := "" |}
            end in
          if (hasScheme || negb (strings.HasPrefix rest1 "///")) &&
             strings.HasPrefix rest1 "//" then
            let authority0 := strings.from 2 rest1 in
            let '(authority, rest) :=
              match strings.Cut authority0 "/" with
              | (before, after, true) => (before, String "/" after)
              | (_, _, false) => (authority0, EmptyString)
              end in
            match parseAuthority authority with
            | None => None
            | Some (user, host) => finish user host false rest
            end
          else
            finish None EmptyString
                   (hasScheme && strings.HasPrefix rest1 "/") rest1
    end.

(** [url.Parse(rawURL)] *)
Definition Parse (rawURL : string) : option URL :=
  let '(u, frag, _) := strings.Cut rawURL "#" in
  match parse u with
  | None => None
  | Some url =>
      if String.eqb frag "" then Some url
      else
        match setFragment frag with
        | None => None
        | Some (fragment, rawFragment) =>
            Some {| Scheme := Scheme url; Opaque := Opaque url;
                    User := User url; Host := Host url; Path := Path url;
                    RawPath := RawPath url; OmitHost := OmitHost url;
                    ForceQuery := ForceQuery url; RawQuery := RawQuery url;
                    Fragment := fragment; RawFragment := rawFragment |}
        end
  end.

(** The assignment [u.Fragment = f]. *)
Definition with_Fragment (f : string) (u : URL) : URL :=
  {| Scheme := Scheme u; Opaque := Opaque u; User := User u; Host := Host u;
     Path := Path u; RawPath := RawPath u; OmitHost := OmitHost u;
     ForceQuery := ForceQuery u; RawQuery := RawQuery u;
     Fragment := f; RawFragment := RawFragment u |}.

(** [u.EscapedPath()] *)
Definition EscapedPath (u : URL) : string :=
  let fallback :=
    if String.eqb (Path u) "*" then "*" else escape (Path u) encodePath in
  if negb (String.eqb (RawPath u) "") && validEncoded (RawPath u) encodePath
  then match unescape (RawPath u) encodePath with
       | Some p => if String.eqb p (Path u) then RawPath u else fallback
       | None => fallback
       end
  else fallback.

(** [u.EscapedFragment()] *)
Definition EscapedFragment (u : URL) : string :=
  let fallback := escape (Fragment u) encodeFragment in
  if negb (String.eqb (RawFragment u) "") &&
     validEncoded (RawFragment u) encodeFragment
  then match unescape (RawFragment u) encodeFragment with
       | Some f => if String.eqb f (Fragment u) then RawFragment u else fallback
       | None => fallback
       end
  else fallback.

(** [Userinfo.String()] *)
Definition Userinfo_String (ui : Userinfo) : string :=
  escape (username ui) encodeUserPassword +:+
  (if passwordSet ui then ":" +:+ escape (password ui) encodeUserPassword
   else "").

(** [u.String()]: the text is assembled in the order the buffer is
    written. *)
Definition String_ (u : URL) : string :=
  let isEmpty (s : string) := String.eqb s "" in
  let hasUser := match User u with Some _ => true | None => false end in
  let scheme := if isEmpty (Scheme u) then "" else Scheme u +:+ ":" in
  let body :=
    if negb (isEmpty (Opaque u)) then scheme +:+ Opaque u
    else
      let authority :=
        if negb (isEmpty (Scheme u)) || negb (isEmpty (Host u)) || hasUser then
          if OmitHost u && isEmpty (Host u) && negb hasUser then ""
          else
            (if negb (isEmpty (Host u)) || negb (isEmpty (Path u)) || hasUser
             then "//" else "") +:+
            match User u with
            | Some ui => Userinfo_String ui +:+ "@"
            | None => ""
            end +:+
            (if isEmpty (Host u) then "" else escape (Host u) encodeHost)
        else "" in
      let path := EscapedPath u in
      let slash :=
        if negb (isEmpty path) && negb (strings.HasPrefix path "/") &&
           negb (isEmpty (Host u)) then "/" else "" in
      let sofar := scheme +:+ authority +:+ slash in
      let dot :=
        if isEmpty sofar &&
           strings.Contains (fst (fst (strings.Cut path "/"))) ":"
        then "./" else "" in
      sofar +:+ dot +:+ path in
  body +:+
  (if ForceQuery u || negb (isEmpty (RawQuery u)) then "?" +:+ RawQuery u else "") +:+
  (if isEmpty (Fragment u) then "" else "#" +:+ EscapedFragment u).

(** [splitHostPort(hostPort)], the host half. *)
Definition splitHostPort_host (hostPort : string) : string :=
  let host :=
    match strings.LastIndex hostPort ":" with
    | Some colon =>
        if validOptionalPort (strings.from colon hostPort)
        then strings.upto colon hostPort else hostPort
    | None => hostPort
    end in
  if strings.HasPrefix host "[" && strings.HasSuffix host "]"
  then String.substring 1 (String.length host - 2) host
  else host.

(** [u.Hostname()] *)
Definition Hostname (u : URL) : string := splitHostPort_host (Host u).

End url.

(** ** Package [regexp]

    Go's [regexp] returns the leftmost match and, among the matches that
    start there, the one a backtracking search finds first.  The matcher
    below is that search, over bytes.  The three patterns of the program
    name ASCII bytes only and their negated classes accept every other
    byte, so matching bytes and matching UTF-8 sequences select the same
    spans.  None of the patterns matches the empty string, and an empty
    match is not reported here. *)

Module regexp.

Inductive Regexp :=
| Empty
| Class (p : ascii -> bool)
| Cat (r1 r2 : Regexp)
| Alt (r1 r2 : Regexp)
| Star (r : Regexp)
| Capture (r : Regexp)
| WordBoundary.

Definition Lit (c : ascii) : Regexp := Class (Ascii.eqb c).

(** A literal string. *)
Fixpoint Str (s : string) : Regexp :=
  match s with
  | EmptyString => Empty
  | String c s' => Cat (Lit c) (Str s')
  end.

(** [r+], [r?], [r{n}], [r{0,n}] and [r{lo,hi}], all greedy. *)
Definition Plus (r : Regexp) : Regexp := Cat r (Star r).
Definition Quest (r : Regexp) : Regexp := Alt r Empty.

Fixpoint Times (n : nat) (r : Regexp) : Regexp :=
  match n with
  | O => Empty
  | S n' => Cat r (Times n' r)
  end.

Fixpoint AtMost (n : nat) (r : Regexp) : Regexp :=
  match n with
  | O => Empty
  | S n' => Quest (Cat r (AtMost n' r))
  end.

Definition Repeat (lo hi : nat) (r : Regexp) : Regexp :=
  Cat (Times lo r) (AtMost (hi - lo) r).

(** A position in the text: the byte before it, the text from it on, and
    the text of the capture group once it has closed. *)
Record state := {
  prev : option ascii;
  rest : string;
  group : option string
}.

Definition is_word (c : option ascii) : bool :=
  match c with
  | Some c => is_alnum c || Ascii.eqb c "_"
  | None => false
  end.

Definition next (s : string) : option ascii :=
  match s with
  | EmptyString => None
  | String c _ => Some c
  end.

(** The text between two positions of one scan. *)
Definition consumed (st st' : state) : string :=
  strings.upto (String.length (rest st) - String.length (rest st')) (rest st).

(** The iterations of a greedy star whose body is matched by [body]:
    one more iteration is tried before the continuation [k], and an
    iteration has to consume something.  Each iteration shortens the
    text, so its length is fuel enough. *)
Fixpoint star (body : state -> (state -> option state) -> option state)
    (k : state -> option state) (fuel : nat) (st : state) : option state :=
  match fuel with
  | O => k st
  | S fuel' =>
      match body st (fun st1 =>
              if String.length (rest st1) <? String.length (rest st)
              then star body k fuel' st1 else None) with
      | Some st' => Some st'
      | None => k st
      end
  end.

(** [run r st k]: the first way to match [r] at [st] that [k] accepts. *)
Fixpoint run (r : Regexp) (st : state) (k : state -> option state) : option state :=
  match r with
  | Empty => k st
  | Class p =>
      match rest st with
      | String c s' =>
          if p c then k {| prev := Some c; rest := s'; group := group st |}
          else None
      | EmptyString => None
      end
  | Cat r1 r2 => run r1 st (fun st1 => run r2 st1 k)
  | Alt r1 r2 =>
      match run r1 st k with
      | Some st' => Some st'
      | None => run r2 st k
      end
  | Star r1 => star (run r1) k (String.length (rest st)) st
  | Capture r1 =>
      run r1 st (fun st1 =>
        k {| prev := prev st1; rest := rest st1;
             group := Some (consumed st st1) |})
  | WordBoundary =>
      if xorb (is_word (prev st)) (is_word (next (rest st))) then k st else None
  end.

(** A match that starts exactly here. *)
Definition matchAt (re : Regexp) (before : option ascii) (s : string) : option state :=
  run re {| prev := before; rest := s; group := None |} Some.

(** All successive matches, left to right, without overlap: the matched
    text and the capture group of each.  [skip] counts the bytes of the
    last match still to be passed over. *)
Fixpoint scan (re : Regexp) (before : option ascii) (s : string) (skip : nat)
  : list (string * option string) :=
  match s with
  | EmptyString => []
  | String c s' =>
      match skip with
      | S n => scan re (Some c) s' n
      | O =>
          match matchAt re before s with
          | Some st =>
              let len := String.length s - String.length (rest st) in
              match len with
              | O => scan re (Some c) s' 0
              | S n => (strings.upto len s, group st) :: scan re (Some c) s' n
              end
          | None => scan re (Some c) s' 0
          end
      end
  end.

(** [re.FindAllString(s, -1)] *)
Definition FindAllString (re : Regexp) (s : string) : list string :=
  map fst (scan re None s 0).

(** [re.FindAllStringSubmatch(s, -1)] for a pattern with one group: each
    match is the slice of the whole match and the group. *)
Definition FindAllStringSubmatch (re : Regexp) (s : string) : list (list string) :=
  map (fun m => [fst m; default EmptyString (snd m)]) (scan re None s 0).

End regexp.

(** ** The program *)

(** [cleanURL]: the URL without its fragment; text that does not parse is
    returned as it is. *)
Definition cleanURL (dirtyURL : string) : string :=
  match url.Parse dirtyURL with
  | None => dirtyURL
  | Some cleanURL => url.String_ (url.with_Fragment "" cleanURL)
  end.

(** [extractDomain]: the last two labels of the host name. *)
Definition extractDomain (rawURL : string) : string :=
  match url.Parse rawURL with
  | None => ""
  | Some parsedURL =>
      let host := url.Hostname parsedURL in
      let parts := strings.Split host "." in
      if 2 <=? length parts
      then nth (length parts - 2) parts "" +:+ "." +:+
           nth (length parts - 1) parts ""
      else host
  end.

Definition not_dquote (c : ascii) : bool := negb (Ascii.eqb c dquote).

(** The pattern [src=Q([^Q]+\.js)Q], where [Q] stands for the double
    quote. *)
Definition jsFileRe : regexp.Regexp :=
  regexp.Cat (regexp.Str "src=")
 (regexp.Cat (regexp.Lit dquote)
 (regexp.Cat (regexp.Capture
                (regexp.Cat
                   (regexp.Plus (regexp.Class not_dquote))
                   (regexp.Str ".js")))
             (regexp.Lit dquote))).

(** [\s]: tab, newline, form feed, carriage return, space. *)
Definition is_space (c : ascii) : bool :=
  match nat_of_ascii c with
  | 9 | 10 | 12 | 13 | 32 => true
  | _ => false
  end.

(** The bytes that end a link: white space, the double quote, the single
    quote, angle brackets and parentheses. *)
Definition link_stop (c : ascii) : bool :=
  is_space c || Ascii.eqb c dquote || one_of "<>()'" c.

(** The pattern [https?://[^...]+], the class excluding the bytes of
    [link_stop]. *)
Definition linkRe : regexp.Regexp :=
  regexp.Cat (regexp.Str "http")
 (regexp.Cat (regexp.Quest (regexp.Lit "s"))
 (regexp.Cat (regexp.Str "://")
             (regexp.Plus (regexp.Class (fun c => negb (link_stop c)))))).

(** The pattern
    [\b(?:[a-z0-9](?:[a-z0-9-]{0,61}[a-z0-9])?\.)+[a-z]{2,6}\b]. *)
Definition subdomainRe : regexp.Regexp :=
  let alnum := regexp.Class (fun c => is_lower c || is_digit c) in
  let inner := regexp.Class (fun c => is_lower c || is_digit c || Ascii.eqb c "-") in
  let label :=
    regexp.Cat alnum
   (regexp.Cat (regexp.Quest (regexp.Cat (regexp.Repeat 0 61 inner) alnum))
               (regexp.Lit ".")) in
  regexp.Cat regexp.WordBoundary
 (regexp.Cat (regexp.Plus label)
 (regexp.Cat (regexp.Repeat 2 6 (regexp.Class is_lower))
             regexp.WordBoundary)).

(** [extractJSFiles]: the script references of a page. *)
Definition extractJSFiles (html baseURL : string) : list string :=
  let matches := regexp.FindAllStringSubmatch jsFileRe html in
  fold_left
    (fun jsFiles match_ =>
       let jsFile := nth 1 match_ "" in
       let jsFile :=
         if negb (strings.HasPrefix jsFile "http")
         then baseURL +:+ "/" +:+ jsFile else jsFile in
       let jsFile := cleanURL jsFile in
       jsFiles ++ [jsFile])
    matches [].

(** [extractLinks]: the absolute links of a script that mention the
    domain and do not end in [.js]. *)
Definition extractLinks (jsContent baseURL : string) : list string :=
  let lines := strings.Split jsContent newline in
  let baseDomain := extractDomain baseURL in
  fold_left
    (fun matches line =>
       fold_left
         (fun matches match_ =>
            if strings.Contains match_ baseDomain &&
               negb (strings.HasSuffix match_ ".js")
            then matches ++ [cleanURL match_] else matches)
         (regexp.FindAllString linkRe line) matches)
    lines [].

(** [extractSubdomains]: the host-name-shaped tokens of a script that
    mention the domain. *)
Definition extractSubdomains (jsContent baseURL : string) : list string :=
  let lines := strings.Split jsContent newline in
  let baseDomain := extractDomain baseURL in
  fold_left
    (fun matches line =>
       fold_left
         (fun matches match_ =>
            if strings.Contains match_ baseDomain
            then matches ++ [match_] else matches)
         (regexp.FindAllString subdomainRe line) matches)
    lines [].

(** [fmt.Sprintf] with the finding's format: a small blue diamond
    (U+1F539), the word, a heavy arrow (U+2794) and the script, in UTF-8. *)
Definition diamond : string :=
  String (ascii_of_nat 240) (String (ascii_of_nat 159)
 (String (ascii_of_nat 148) (String (ascii_of_nat 185) ""))).
Definition arrow : string :=
  String (ascii_of_nat 226) (String (ascii_of_nat 158)
 (String (ascii_of_nat 148) "")).

Definition finding (word jsFile : string) : string :=
  diamond +:+ " " +:+ word +:+ " " +:+ arrow +:+ " " +:+ jsFile.

(** [findSensitiveData]; the global [sensitiveWords] is its first
    argument. *)
Definition findSensitiveData (sensitiveWords : list string)
    (jsContent jsFile : string) : list string :=
  fold_left
    (fun matches word =>
       if strings.Contains jsContent word
       then matches ++ [finding word jsFile] else matches)
    sensitiveWords [].

(** [encountered[key]]: a key that is absent reads as [false]. *)
Definition seen (encountered : gmap string bool) (key : string) : bool :=
  default false (encountered !! key).

(** [filterLinks] *)
Definition filterLinks (links : list string) (baseURL : string) : list string :=
  let baseDomain := extractDomain baseURL in
  snd (fold_left
    (fun '(encountered, filteredLinks) link =>
       if negb (seen encountered link) && strings.Contains link baseDomain
       then (<[link := true]> encountered, filteredLinks ++ [link])
       else (encountered, filteredLinks))
    links (∅, [])).

(** [filterSubdomains] *)
Definition filterSubdomains (subdomains : list string) (baseURL : string) : list string :=
  let baseDomain := extractDomain baseURL in
  snd (fold_left
    (fun '(encountered, filteredSubdomains) subdomain =>
       if negb (seen encountered subdomain) &&
          strings.HasSuffix subdomain baseDomain
       then (<[subdomain := true]> encountered, filteredSubdomains ++ [subdomain])
       else (encountered, filteredSubdomains))
    subdomains (∅, [])).

(** [removeDuplicates] *)
Definition removeDuplicates (elements : list string) : list string :=
  let result :=
    snd (fold_left
      (fun '(encountered, result) v =>
         if negb (seen encountered v)
         then (<[v := true]> encountered, result ++ [v])
         else (encountered, result))
      elements (∅, [])) in
  sort.Strings result.

(** The four lists [processURL] prints and saves. *)
Record ResultSet := {
  Links : list string;
  Subdomains : list string;
  JSFiles : list string;
  SensitiveData : list string
}.

Section processURL.

(** The network: a GET and the reading of its body give the body or
    fail, and leave the world changed. *)
Context {World : Type}.
Variable fetch : string -> World -> option string * World.
Variable sensitiveWords : list string.

(** The body of the loop over the scripts in [processURL]: a script that
    cannot be fetched is passed over. *)
Definition scanScript (targetURL : string)
    (acc : list string * list string * list string * World) (jsFile : string)
  : list string * list string * list string * World :=
  let '(results, subdomains, sensitiveData, w) := acc in
  match fetch jsFile w with
  | (None, w') => (results, subdomains, sensitiveData, w')
  | (Some jsContent, w') =>
      (results ++ filterLinks (extractLinks jsContent targetURL) targetURL,
       subdomains ++
         filterSubdomains (extractSubdomains jsContent targetURL) targetURL,
       sensitiveData ++ findSensitiveData sensitiveWords jsContent jsFile,
       w')
  end.

(** The loop over the scripts. *)
Definition scanScripts (targetURL : string) (jsFiles : list string) (w : World)
  : list string * list string * list string * World :=
  fold_left (scanScript targetURL) jsFiles ([], [], [], w).

(** [processURL]: [None] when it returns before reporting. *)
Definition processURL (targetURL : string) (w : World) : option ResultSet * World :=
  match fetch targetURL w with
  | (None, w1) => (None, w1)
  | (Some body, w1) =>
      let jsFiles := extractJSFiles body targetURL in
      if length jsFiles =? 0 then (None, w1)
      else
        let '(results, subdomains, sensitiveData, w2) :=
          scanScripts targetURL jsFiles w1 in
        (Some {| Links := removeDuplicates results;
                 Subdomains := removeDuplicates subdomains;
                 JSFiles := removeDuplicates jsFiles;
                 SensitiveData := removeDuplicates sensitiveData |}, w2)
  end.

End processURL.

(** * Notions the statements use *)

(** ** First occurrences

    [firstsFrom acc l] is what a loop that appends the strings it has not
    seen appends for [l], when [acc] holds what it has appended so far;
    [firsts l] is [l] without the repeats of earlier strings. *)

Fixpoint firstsFrom (acc l : list string) : list string :=
  match l with
  | [] => []
  | x :: l' =>
      if bool_decide (x ∈ acc) then firstsFrom acc l'
      else x :: firstsFrom (acc ++ [x]) l'
  end.

Definition firsts (l : list string) : list string := firstsFrom [] l.

(** The map of a loop holds exactly the strings appended so far. *)
Definition tracks (encountered : gmap string bool) (result : list string) : Prop :=
  ∀ k, seen encountered k = true ↔ k ∈ result.

(** ** Order *)

(** Byte-wise lexicographic order, written out: a proper prefix comes
    first, and otherwise the first differing byte decides. *)
Fixpoint lex_le (s t : string) : Prop :=
  match s, t with
  | EmptyString, _ => True
  | String _ _, EmptyString => False
  | String a s', String b t' =>
      nat_of_ascii a < nat_of_ascii b ∨ (a = b ∧ lex_le s' t')
  end.

Definition ascending (l : list string) : Prop := StronglySorted lex_le l.

(** ** Texts *)

(** Every byte of [s] satisfies [p]. *)
Fixpoint all_bytes (p : ascii → bool) (s : string) : bool :=
  match s with
  | EmptyString => true
  | String c s' => p c && all_bytes p s'
  end.

(** No number sign, the byte that opens a fragment, occurs in [s]. *)
Definition not_hash (c : ascii) : bool := negb (Ascii.eqb c "#").
Definition hash_free (s : string) : bool := all_bytes not_hash s.

(** The fields [url.Parse] fills from the text before the fragment hold no
    number sign. *)
Definition fragmentless (u : url.URL) : Prop :=
  hash_free (url.Scheme u) = true ∧ hash_free (url.Opaque u) = true ∧
  hash_free (url.RawQuery u) = true.

(** The bytes [src=], a double quote, [v] and a double quote, followed by
    [post]: the text of a double-quoted [src] attribute with value [v] as
    the script pattern reads it. *)
Definition srcAttr (v post : string) : string :=
  "src=" +:+ String dquote (v +:+ String dquote post).

(** The values the script pattern captures in a page, in order. *)
Definition jsCaptures (html : string) : list string :=
  map (fun match_ => nth 1 match_ "") (regexp.FindAllStringSubmatch jsFileRe html).

(** What [extractJSFiles] makes of one captured value. *)
Definition resolveScript (baseURL jsFile : string) : string :=
  cleanURL (if strings.HasPrefix jsFile "http" then jsFile
            else baseURL +:+ "/" +:+ jsFile).

(** ** The matcher on a class *)

(** What a greedy star over a class does: it runs to the end of the bytes
    of the class and gives them back one at a time until the continuation
    accepts. *)
Fixpoint starClass (p : ascii → bool) (k : regexp.state → option regexp.state)
    (before : option ascii) (s : string) (g : option string) : option regexp.state :=
  let here := k {| regexp.prev := before; regexp.rest := s; regexp.group := g |} in
  match s with
  | EmptyString => here
  | String c s' =>
      if p c then
        match starClass p k (Some c) s' g with
        | Some st => Some st
        | None => here
        end
      else here
  end.

(** The byte before the position a literal [s] leads to. *)
Fixpoint last_byte (before : option ascii) (s : string) : option ascii :=
  match s with
  | EmptyString => before
  | String c s' => last_byte (Some c) s'
  end.

(** ** Two networks for the examples *)

(** The page of [https://x.com] names one script, and the script holds
    links, host names and a key. *)
Definition demoPage : string :=
  "<html><script src=" +:+ String dquote "/app.js" +:+ String dquote "></script></html>".

Definition demoScript : string :=
  "var api = 'https://api.x.com/v1#top';" +:+ String newline
  "var cdn = 'https://cdn.other.net/lib';" +:+ String newline
  "var k = " +:+ String dquote "SECRET_KEY_1" +:+ String dquote ";".

Definition demoFetch (u : string) (w : unit) : option string * unit :=
  (if String.eqb u "https://x.com" then Some demoPage
   else if String.eqb u "https://x.com//app.js" then Some demoScript
   else None, w).

Definition demoResult : ResultSet :=
  {| Links := ["https://api.x.com/v1"];
     Subdomains := ["api.x.com"];
     JSFiles := ["https://x.com//app.js"];
     SensitiveData := [finding "SECRET_KEY" "https://x.com//app.js"] |}.

(** A page of [https://x.com] whose script lives on another domain. *)
Definition cdnFetch (u : string) (w : unit) : option string * unit :=
  (if String.eqb u "https://x.com"
   then Some ("<script " +:+ srcAttr "https://cdn.other.net/lib.js" "></script>")
   else None, w).

(** * Notions of the further properties *)

(** What [extractLinks] keeps of the matches of one line, and what
    [extractSubdomains] keeps. *)
Definition lineLinks (baseDomain line : string) : list string :=
  map cleanURL
    (List.filter
       (fun match_ => strings.Contains match_ baseDomain &&
                      negb (strings.HasSuffix match_ ".js"))
       (regexp.FindAllString linkRe line)).

Definition lineSubdomains (baseDomain line : string) : list string :=
  List.filter (fun match_ => strings.Contains match_ baseDomain)
              (regexp.FindAllString subdomainRe line).

(** The bytes a pattern can consume: those one of its classes accepts. *)
Fixpoint alphabet (r : regexp.Regexp) (c : ascii) : bool :=
  match r with
  | regexp.Empty | regexp.WordBoundary => false
  | regexp.Class p => p c
  | regexp.Cat r1 r2 | regexp.Alt r1 r2 => alphabet r1 c || alphabet r2 c
  | regexp.Star r1 | regexp.Capture r1 => alphabet r1 c
  end.

(** The first byte of a text, if any, satisfies [p]. *)
Definition starts_with (p : ascii → bool) (s : string) : bool :=
  match s with
  | EmptyString => false
  | String c _ => p c
  end.

(** The bytes of a host-name-shaped token. *)
Definition host_byte (c : ascii) : bool :=
  is_lower c || is_digit c || Ascii.eqb c "-" || Ascii.eqb c ".".

(** A byte that can stand inside a link. *)
Definition link_byte (c : ascii) : bool := negb (link_stop c).

(** A network that answers every request from [net] and records the URLs
    requested, in order. *)
Definition logged (net : string → option string) (u : string) (log : list string)
  : option string * list string :=
  (net u, log ++ [u]).

(** What one script adds to each accumulator of [processURL] on a network
    that answers from [net]. *)
Definition scriptLinks (net : string → option string) (targetURL jsFile : string)
  : list string :=
  match net jsFile with
  | Some jsContent => filterLinks (extractLinks jsContent targetURL) targetURL
  | None => []
  end.

Definition scriptSubdomains (net : string → option string)
    (targetURL jsFile : string) : list string :=
  match net jsFile with
  | Some jsContent =>
      filterSubdomains (extractSubdomains jsContent targetURL) targetURL
  | None => []
  end.

Definition scriptFindings (net : string → option string)
    (sensitiveWords : list string) (jsFile : string) : list string :=
  match net jsFile with
  | Some jsContent => findSensitiveData sensitiveWords jsContent jsFile
  | None => []
  end.

(** A page with two script references, one of which cannot be fetched. *)
Definition twoScriptPage : string :=
  "<script " +:+ srcAttr "/app.js" "></script>" +:+
  "<script " +:+ srcAttr "/gone.js" "></script>".

Definition twoNet (u : string) : option string :=
  if String.eqb u "https://x.com" then Some twoScriptPage
  else if String.eqb u "https://x.com//app.js" then Some demoScript
  else None.

Definition twoFetch (u : string) (w : unit) : option string * unit := (twoNet u, w).

(** A byte that is not white space. *)
Definition not_space (c : ascii) : bool := negb (is_space c).

(** The fields [url.Parse] copies from the text are made of bytes of the
    class [q]. *)
Definition kept_fields (q : ascii → bool) (u : url.URL) : Prop :=
  all_bytes q (url.Scheme u) = true ∧ all_bytes q (url.Opaque u) = true ∧
  all_bytes q (url.RawQuery u) = true.

(** [saveToFile], once the file is created (and so empty): one
    [WriteString] of the entry and a newline for each entry, in order,
    stopping at the first write that fails. [WriteString] takes the content
    of the file and the text to write and gives the content after the call
    and whether the call succeeded. *)
Fixpoint writeLines (WriteString : string → string → string * bool)
    (data : list string) (file : string) : string :=
  match data with
  | [] => file
  | line :: rest =>
      let (file', ok) := WriteString file (line +:+ String newline "") in
      if ok then writeLines WriteString rest file' else file'
  end.

Definition saveToFile (WriteString : string → string → string * bool)
    (data : list string) : string :=
  writeLines WriteString data "".

(** A write that succeeds in full. *)
Definition fullWrite (file text : string) : string * bool := (file +:+ text, true).

(** A page whose script reference holds a line break. *)
Definition brokenPage : string :=
  "<script src=" +:+ String dquote ("a" +:+ String newline ("b.js" +:+ String dquote "></script>")).

(** ** Package [bufio]: the scanner of lines

    The loop [for scanner.Scan()] over a [bufio.NewScanner] with the
    default split function [ScanLines] and the default buffer. *)

Module bufio.

(** [bufio.MaxScanTokenSize]: the size the buffer grows to. *)
Definition MaxScanTokenSize : N := 65536.

(** A line the buffer can hold until its newline, or until the end of the
    file, is read: a longer one ends the scan with [ErrTooLong]. *)
Definition fits (line : string) : bool :=
  (N.of_nat (String.length line) <? MaxScanTokenSize)%N.

(** [dropCR(data)]: without one final carriage return. *)
Definition dropCR (data : string) : string :=
  if strings.HasSuffix data (String "013" "")
  then strings.upto (String.length data - 1) data else data.

(** The lines of a text: the pieces between its newlines, the piece after
    the last newline counting only when it is not empty. *)
Fixpoint dropFinalEmpty (pieces : list string) : list string :=
  match pieces with
  | [] => []
  | [p] => if String.eqb p "" then [] else [p]
  | p :: ps => p :: dropFinalEmpty ps
  end.

(** The tokens [scanner.Text()] gives for the lines, up to the first line
    that does not fit, and whether [scanner.Err()] is nil at the end. *)
Fixpoint scanPieces (pieces : list string) : list string * bool :=
  match pieces with
  | [] => ([], true)
  | p :: ps =>
      if fits p then
        let (tokens, ok) := scanPieces ps in (dropCR p :: tokens, ok)
      else ([], false)
  end.

Definition scanAll (text : string) : list string * bool :=
  scanPieces (dropFinalEmpty (strings.Split text newline)).

End bufio.

(** ** The word list and the list of targets *)

(** The scanning loop of [loadWordlist] and of [loadDefaultWordlist] over
    an opened file: every token is appended to [sensitiveWords], also when
    the scan ends with an error. A file that cannot be opened adds
    nothing. *)
Definition loadWords (file : option string) (sensitiveWords : list string)
  : list string :=
  match file with
  | None => sensitiveWords
  | Some text => sensitiveWords ++ fst (bufio.scanAll text)
  end.

(** [loadWordlist]. [open] gives the content of the file of a name, if it
    can be opened; [defaultFile] is the name [loadDefaultWordlist] joins
    from the home directory, [None] when there is no home directory. *)
Definition loadWordlist (open : string → option string) (wordlistFile : string)
    (defaultFile : option string) (sensitiveWords : list string) : list string :=
  if negb (String.eqb wordlistFile "") then loadWords (open wordlistFile) sensitiveWords
  else match defaultFile with
       | None => sensitiveWords
       | Some fileName => loadWords (open fileName) sensitiveWords
       end.

Section processInputURLs.

Context {World : Type}.
Variable fetch : string → World → option string * World.
Variable sensitiveWords : list string.

(** The loop of [processInputURLs] over the tokens: what [processURL]
    reports for each, in order. *)
Definition processTargets (targets : list string) (w : World)
  : list (option ResultSet) * World :=
  fold_left
    (fun '(reports, w) targetURL =>
       let (report, w') := processURL fetch sensitiveWords targetURL w in
       (reports ++ [report], w'))
    targets ([], w).

(** [processInputURLs] *)
Definition processInputURLs (open : string → option string) (urlsFile : string)
    (w : World) : list (option ResultSet) * World :=
  if String.eqb urlsFile "" then ([], w)
  else match open urlsFile with
       | None => ([], w)
       | Some text => processTargets (fst (bufio.scanAll text)) w
       end.

End processInputURLs.


(** A word list with a blank line. *)
Definition blankWordlist : string :=
  "password" +:+ String newline (String newline "token").

(** ** The files of results

    The files under the output directory are a map from the directory of
    a domain and the name of a file to the content of the file. *)


(** * Properties *)

(** ** The packages at work *)

Example sort_demo : sort.Strings ["b"; "a"; "ab"; "B"] = ["B"; "a"; "ab"; "b"].
Proof. vm_compute. reflexivity. Qed.

Example split_demo : strings.Split "a.b..c" "." = ["a"; "b"; ""; "c"].
Proof. reflexivity. Qed.

Example parse_demo :
  url.Parse "HTTP://user:pw@Example.com:8080/a b/c?x=1#top"
  = Some {| url.Scheme := "http"; url.Opaque := "";
            url.User := Some {| url.username := "user"; url.password := "pw";
                                url.passwordSet := true |};
            url.Host := "Example.com:8080"; url.Path := "/a b/c";
            url.RawPath := "/a b/c"; url.OmitHost := false;
            url.ForceQuery := false; url.RawQuery := "x=1";
            url.Fragment := "top"; url.RawFragment := "" |}.
Proof. by vm_compute. Qed.

Example String_demo :
  map (fun s => option_map url.String_ (url.Parse s))
      ["HTTP://user:pw@Example.com:8080/a b/c?x=1#top";
       "https://x.com//app.js"; "mailto:someone@x.com"; "//x.com/a?";
       "x.com/index.html"; "http://[fe80::1%25en0]:8080/";
       "http://x.com:80a/"; "http://x.com/%zz"; ":x"; "http://a b/"]
  = [Some "http://user:pw@Example.com:8080/a%20b/c?x=1#top";
     Some "https://x.com//app.js"; Some "mailto:someone@x.com"; Some "//x.com/a?";
     Some "x.com/index.html"; Some "http://[fe80::1%25en0]:8080/";
     None; None; None; None].
Proof. by vm_compute. Qed.

Example Hostname_demo :
  map (fun s => option_map url.Hostname (url.Parse s))
      ["https://sub.example.com:8443/a"; "http://[2001:db8::1]:80/";
       "x.com/index.html"; "http://localhost"]
  = [Some "sub.example.com"; Some "2001:db8::1"; Some ""; Some "localhost"].
Proof. by vm_compute. Qed.

Example extractLinks_demo :
  extractLinks
    ("var a = 'https://api.x.com/v1#top'; b=(http://x.com/y.js) " +:+
     String newline "see https://evil.org/?r=x.com and https://other.org/")
    "https://x.com"
  = ["https://api.x.com/v1"; "https://evil.org/?r=x.com"].
Proof. by vm_compute. Qed.

Example extractSubdomains_demo :
  extractSubdomains
    "var a = 'https://api.x.com/v1'; notx.com x.com.evil.org API.x.com a_b.x.com y.js"
    "https://x.com"
  = ["api.x.com"; "notx.com"; "x.com.evil.org"; "x.com"; "x.com"] ∧
  filterSubdomains
    ["api.x.com"; "notx.com"; "x.com.evil.org"; "x.com"; "x.com"] "https://x.com"
  = ["api.x.com"; "notx.com"; "x.com"].
Proof. by vm_compute. Qed.

(** ** Strings *)

Lemma app_cons (c : ascii) (s t : string) : String c s +:+ t = String c (s +:+ t).
Proof. reflexivity. Qed.

Lemma app_empty_l (t : string) : "" +:+ t = t.
Proof. reflexivity. Qed.

Lemma app_empty_r (s : string) : s +:+ "" = s.
Proof. induction s as [|c s IH]; [reflexivity|]. rewrite app_cons. by f_equal. Qed.

Lemma app_assoc_s (s t u : string) : (s +:+ t) +:+ u = s +:+ (t +:+ u).
Proof. induction s as [|c s IH]; [reflexivity|]. rewrite !app_cons. by f_equal. Qed.

Lemma length_app_s (s t : string) :
  String.length (s +:+ t) = String.length s + String.length t.
Proof.
  induction s as [|c s IH]; [reflexivity|].
  rewrite app_cons. simpl. by rewrite IH.
Qed.

Lemma app_inv_tail_s (s t u : string) : s +:+ u = t +:+ u → s = t.
Proof.
  revert t. induction s as [|c s IH]; intros [|d t] H.
  - reflexivity.
  - apply (f_equal String.length) in H.
    rewrite app_empty_l, app_cons in H. simpl in H. rewrite length_app_s in H. lia.
  - apply (f_equal String.length) in H.
    rewrite app_empty_l, app_cons in H. simpl in H. rewrite length_app_s in H. lia.
  - rewrite !app_cons in H. injection H as -> H. f_equal. by apply IH.
Qed.

Lemma prefix_spec (p s : string) :
  String.prefix p s = true ↔ ∃ t, s = p +:+ t.
Proof.
  revert s. induction p as [|c p IH]; intros s.
  - split; [intros _; by exists s|]. intros _. by destruct s.
  - destruct s as [|d s]; simpl.
    + split; [done|]. intros [t Ht]. by rewrite app_cons in Ht.
    + destruct (ascii_dec c d) as [->|Hne].
      * rewrite IH. split; intros [t Ht]; exists t.
        -- rewrite app_cons. by f_equal.
        -- rewrite app_cons in Ht. by injection Ht.
      * split; [done|]. intros [t Ht]. rewrite app_cons in Ht. congruence.
Qed.

Lemma prefix_empty (s : string) : String.prefix "" s = true.
Proof. by destruct s. Qed.

Lemma Contains_nil (sub : string) :
  strings.Contains "" sub = String.prefix sub "".
Proof. simpl. apply orb_false_r. Qed.

Lemma Contains_cons (c : ascii) (s sub : string) :
  strings.Contains (String c s) sub =
  String.prefix sub (String c s) || strings.Contains s sub.
Proof. reflexivity. Qed.

(** [strings.Contains] decides the occurrence of a substring. *)
Lemma Contains_spec (s sub : string) :
  strings.Contains s sub = true ↔ ∃ pre post, s = pre +:+ sub +:+ post.
Proof.
  induction s as [|c s IH].
  - rewrite Contains_nil, prefix_spec. split.
    + intros [t Ht]. by exists "", t.
    + intros [[|d pre] [post H]]; [exists post; exact H|by rewrite app_cons in H].
  - rewrite Contains_cons, orb_true_iff, prefix_spec, IH. split.
    + intros [[t Ht]|(pre & post & Ht)].
      * by exists "", t.
      * exists (String c pre), post. rewrite app_cons. by f_equal.
    + intros ([|d pre] & post & Ht).
      * left. exists post. exact Ht.
      * right. rewrite app_cons in Ht. injection Ht as -> Ht. by exists pre, post.
Qed.

Lemma Contains_empty (s : string) : strings.Contains s "" = true.
Proof. destruct s; [reflexivity|]. by rewrite Contains_cons, prefix_empty. Qed.

Lemma substring_all (s : string) : String.substring 0 (String.length s) s = s.
Proof. induction s as [|c s IH]; [reflexivity|]. simpl. by rewrite IH. Qed.

Lemma substring_skip (pre s : string) (n : nat) :
  String.substring (String.length pre) n (pre +:+ s) = String.substring 0 n s.
Proof. induction pre as [|c pre IH]; [reflexivity|]. rewrite app_cons. simpl. exact IH. Qed.

Lemma substring_app_l (s t : string) :
  String.substring 0 (String.length s) (s +:+ t) = s.
Proof.
  induction s as [|c s IH]; [by destruct t|].
  rewrite app_cons. simpl. by rewrite IH.
Qed.

Lemma substring_0_0 (s : string) : String.substring 0 0 s = "".
Proof. by destruct s. Qed.

Lemma substring_split (n m : nat) (s : string) :
  n + m = String.length s →
  s = String.substring 0 n s +:+ String.substring n m s.
Proof.
  revert s. induction n as [|n IH]; intros s Hn.
  - simpl in Hn. subst m. by rewrite substring_0_0, app_empty_l, substring_all.
  - destruct s as [|c s]; [simpl in Hn; lia|].
    simpl. rewrite app_cons. f_equal. apply IH. simpl in Hn. lia.
Qed.

(** [strings.HasSuffix] decides that a string ends with another. *)
Lemma HasSuffix_spec (s suffix : string) :
  strings.HasSuffix s suffix = true ↔ ∃ pre, s = pre +:+ suffix.
Proof.
  unfold strings.HasSuffix. rewrite andb_true_iff, Nat.leb_le, String.eqb_eq. split.
  - intros [Hlen Hsub].
    exists (String.substring 0 (String.length s - String.length suffix) s).
    transitivity
      (String.substring 0 (String.length s - String.length suffix) s +:+
       String.substring (String.length s - String.length suffix)
                        (String.length suffix) s).
    + apply substring_split. lia.
    + by rewrite Hsub.
  - intros [pre ->]. rewrite length_app_s. split; [lia|].
    replace (String.length pre + String.length suffix - String.length suffix)
      with (String.length pre) by lia.
    rewrite substring_skip. apply substring_all.
Qed.

Lemma HasSuffix_empty (s : string) : strings.HasSuffix s "" = true.
Proof. apply HasSuffix_spec. exists s. by rewrite app_empty_r. Qed.

(** ** The loops that keep first occurrences

    [filterLinks], [filterSubdomains] and [removeDuplicates] share one loop:
    an element is appended when it has not been seen and passes a test. *)

Lemma elem_of_firstsFrom (acc l : list string) (x : string) :
  x ∈ firstsFrom acc l ↔ x ∈ l ∧ x ∉ acc.
Proof.
  revert acc. induction l as [|y l IH]; intros acc; simpl.
  - rewrite elem_of_nil. tauto.
  - case_bool_decide as Hy.
    + rewrite IH, elem_of_cons. split; [tauto|].
      intros [[->|Hx] Hacc]; tauto.
    + rewrite !elem_of_cons, IH, elem_of_app, list_elem_of_singleton.
      destruct (decide (x = y)) as [->|Hne]; tauto.
Qed.

Lemma elem_of_firsts (l : list string) (x : string) : x ∈ firsts l ↔ x ∈ l.
Proof. unfold firsts. rewrite elem_of_firstsFrom, elem_of_nil. tauto. Qed.

Lemma NoDup_firstsFrom (acc l : list string) : NoDup (firstsFrom acc l).
Proof.
  revert acc. induction l as [|y l IH]; intros acc; simpl.
  - constructor.
  - case_bool_decide as Hy; [apply IH|].
    apply NoDup_cons. split; [|apply IH].
    rewrite elem_of_firstsFrom, elem_of_app, list_elem_of_singleton. tauto.
Qed.

Lemma NoDup_firsts (l : list string) : NoDup (firsts l).
Proof. apply NoDup_firstsFrom. Qed.

Lemma firstsFrom_id (acc l : list string) :
  NoDup l → (∀ x, x ∈ l → x ∉ acc) → firstsFrom acc l = l.
Proof.
  revert acc. induction l as [|y l IH]; intros acc Hnd Hacc; simpl; [done|].
  apply NoDup_cons in Hnd as [Hy Hnd].
  case_bool_decide as Hin.
  - exfalso. apply (Hacc y); [apply elem_of_cons; by left|done].
  - f_equal. apply IH; [done|]. intros x Hx.
    rewrite elem_of_app, list_elem_of_singleton. intros [Hxa| ->]; [|done].
    apply (Hacc x); [apply elem_of_cons; by right|done].
Qed.

Lemma firsts_id (l : list string) : NoDup l → firsts l = l.
Proof. intros Hnd. apply firstsFrom_id; [done|]. intros x _. apply not_elem_of_nil. Qed.

Lemma filter_true (l : list string) : List.filter (fun _ => true) l = l.
Proof. induction l as [|x l IH]; [done|]. simpl. by f_equal. Qed.

Section keep_first.

Variable keep : string -> bool.
Variable step :
  gmap string bool * list string -> string -> gmap string bool * list string.
Hypothesis step_eq : ∀ encountered result v,
  step (encountered, result) v =
  if negb (seen encountered v) && keep v
  then (<[v := true]> encountered, result ++ [v])
  else (encountered, result).

Lemma tracks_empty : tracks ∅ [].
Proof.
  intros k. unfold seen. rewrite lookup_empty, elem_of_nil. simpl. split; [done|tauto].
Qed.

Lemma tracks_insert encountered result v :
  tracks encountered result →
  tracks (<[v := true]> encountered) (result ++ [v]).
Proof.
  intros Htr k. unfold seen. destruct (decide (v = k)) as [->|Hne].
  - rewrite lookup_insert_eq, elem_of_app, list_elem_of_singleton. simpl. tauto.
  - rewrite lookup_insert_ne by done. specialize (Htr k).
    unfold seen in Htr. rewrite Htr, elem_of_app, list_elem_of_singleton.
    split; [tauto|]. intros [?|?]; [done|congruence].
Qed.

Lemma loop_from (l : list string) encountered result :
  tracks encountered result →
  snd (fold_left step l (encountered, result)) =
  result ++ firstsFrom result (List.filter keep l).
Proof.
  revert encountered result.
  induction l as [|x l IH]; intros encountered result Htr; simpl.
  - by rewrite app_nil_r.
  - rewrite step_eq.
    destruct (seen encountered x) eqn:Hseen, (keep x) eqn:Hkeep; simpl.
    + rewrite bool_decide_eq_true_2 by (by apply Htr). by apply IH.
    + by apply IH.
    + rewrite bool_decide_eq_false_2.
      * rewrite IH by (by apply tracks_insert). by rewrite <- app_assoc.
      * intros Hin. apply Htr in Hin. congruence.
    + by apply IH.
Qed.

Lemma loop_firsts (l : list string) :
  snd (fold_left step l (∅, [])) = firsts (List.filter keep l).
Proof. by rewrite loop_from by apply tracks_empty. Qed.

End keep_first.

Lemma filterLinks_firsts (links : list string) (baseURL : string) :
  filterLinks links baseURL =
  firsts (List.filter (fun link => strings.Contains link (extractDomain baseURL)) links).
Proof. unfold filterLinks. by apply loop_firsts. Qed.

Lemma filterSubdomains_firsts (subdomains : list string) (baseURL : string) :
  filterSubdomains subdomains baseURL =
  firsts (List.filter (fun s => strings.HasSuffix s (extractDomain baseURL)) subdomains).
Proof. unfold filterSubdomains. by apply loop_firsts. Qed.

Lemma removeDuplicates_firsts (elements : list string) :
  removeDuplicates elements = sort.Strings (firsts elements).
Proof.
  unfold removeDuplicates.
  rewrite (loop_firsts (fun _ => true)), filter_true; [done|].
  intros encountered result v. by rewrite andb_true_r.
Qed.

(** ** Sorting *)

Lemma ascii_compare_nat (a b : ascii) :
  Ascii.compare a b = Nat.compare (nat_of_ascii a) (nat_of_ascii b).
Proof. unfold Ascii.compare, nat_of_ascii. by rewrite N2Nat.inj_compare. Qed.

(** The order [sort.Strings] sorts by is the byte-wise lexicographic one. *)
Lemma le_lex (s t : string) : String.le s t ↔ lex_le s t.
Proof.
  unfold String.le, String.leb. revert t.
  induction s as [|a s IH]; intros [|b t]; simpl; try tauto.
  rewrite ascii_compare_nat.
  destruct (Nat.compare_spec (nat_of_ascii a) (nat_of_ascii b)) as [Heq|Hlt|Hgt].
  - assert (a = b) as -> by (rewrite <- (ascii_nat_embedding a), Heq; apply ascii_nat_embedding).
    rewrite IH. split; [tauto|]. intros [?|[_ ?]]; [lia|done].
  - simpl. tauto.
  - simpl. split; [done|]. intros [?|[-> _]]; lia.
Qed.

Lemma StronglySorted_iff {A} (R1 R2 : A → A → Prop) (l : list A) :
  (∀ x y, R1 x y ↔ R2 x y) → StronglySorted R1 l → StronglySorted R2 l.
Proof.
  intros HR. induction 1 as [|x l Hs IH Hall]; constructor; [done|].
  eapply Forall_impl; [exact Hall|]. intros y. apply HR.
Qed.

Lemma sort_ascending (l : list string) : ascending (sort.Strings l).
Proof.
  apply (StronglySorted_iff String.le); [apply le_lex|].
  apply StronglySorted_merge_sort; apply _.
Qed.

Lemma sort_Permutation (l : list string) : sort.Strings l ≡ₚ l.
Proof. apply merge_sort_Permutation. Qed.

Lemma sort_elem_of (l : list string) (x : string) : x ∈ sort.Strings l ↔ x ∈ l.
Proof. by rewrite sort_Permutation. Qed.

Lemma sort_NoDup (l : list string) : NoDup l → NoDup (sort.Strings l).
Proof. by rewrite sort_Permutation. Qed.

(** Sorting a list that is sorted changes nothing. *)
Lemma sort_sorted_id (l : list string) : ascending l → sort.Strings l = l.
Proof.
  intros Hl. apply (StronglySorted_unique String.le).
  - apply StronglySorted_merge_sort; apply _.
  - apply (StronglySorted_iff lex_le); [|done]. intros x y. symmetry. apply le_lex.
  - apply sort_Permutation.
Qed.

Lemma removeDuplicates_elem_of (elements : list string) (x : string) :
  x ∈ removeDuplicates elements ↔ x ∈ elements.
Proof. by rewrite removeDuplicates_firsts, sort_elem_of, elem_of_firsts. Qed.

Lemma removeDuplicates_NoDup (elements : list string) :
  NoDup (removeDuplicates elements).
Proof. rewrite removeDuplicates_firsts. apply sort_NoDup, NoDup_firsts. Qed.

Lemma removeDuplicates_ascending (elements : list string) :
  ascending (removeDuplicates elements).
Proof. rewrite removeDuplicates_firsts. apply sort_ascending. Qed.

(** ** The aggregator *)

Section processURL_facts.

Context {World : Type}.
Variable fetch : string -> World -> option string * World.
Variable sensitiveWords : list string.

(** What [processURL] reports, when it reports. *)
Lemma processURL_Some targetURL w rs w' :
  processURL fetch sensitiveWords targetURL w = (Some rs, w') →
  ∃ body w1 results subdomains sensitiveData,
    fetch targetURL w = (Some body, w1) ∧
    extractJSFiles body targetURL ≠ [] ∧
    scanScripts fetch sensitiveWords targetURL
      (extractJSFiles body targetURL) w1
      = (results, subdomains, sensitiveData, w') ∧
    rs = {| Links := removeDuplicates results;
            Subdomains := removeDuplicates subdomains;
            JSFiles := removeDuplicates (extractJSFiles body targetURL);
            SensitiveData := removeDuplicates sensitiveData |}.
Proof.
  unfold processURL. destruct (fetch targetURL w) as [[body|] w1]; [|done].
  destruct (extractJSFiles body targetURL) as [|jsFile jsFiles] eqn:Hjs; [done|].
  simpl.
  destruct (scanScripts fetch sensitiveWords targetURL (jsFile :: jsFiles) w1)
    as [[[results subdomains] sensitiveData] w2] eqn:Hscan.
  intros [= <- <-]. exists body, w1, results, subdomains, sensitiveData.
  rewrite Hjs. repeat split; done.
Qed.

(** A property of the three accumulators that every script keeps holds
    when the loop ends. *)
Lemma scanScripts_keeps (P : list string → list string → list string → Prop)
    targetURL :
  P [] [] [] →
  (∀ results subdomains sensitiveData jsFile jsContent,
     P results subdomains sensitiveData →
     P (results ++ filterLinks (extractLinks jsContent targetURL) targetURL)
       (subdomains ++
          filterSubdomains (extractSubdomains jsContent targetURL) targetURL)
       (sensitiveData ++ findSensitiveData sensitiveWords jsContent jsFile)) →
  ∀ jsFiles w results subdomains sensitiveData w',
    scanScripts fetch sensitiveWords targetURL jsFiles w
      = (results, subdomains, sensitiveData, w') →
    P results subdomains sensitiveData.
Proof.
  intros Hnil Hstep jsFiles w. unfold scanScripts.
  assert (∀ jsFiles r s d w results subdomains sensitiveData w',
    P r s d →
    fold_left (scanScript fetch sensitiveWords targetURL) jsFiles (r, s, d, w)
      = (results, subdomains, sensitiveData, w') →
    P results subdomains sensitiveData) as Hfold.
  { clear jsFiles w. induction jsFiles as [|jsFile jsFiles IH];
      intros r s d w results subdomains sensitiveData w' HP; simpl.
    - by intros [= <- <- <- <-].
    - destruct (fetch jsFile w) as [[jsContent|] w1]; apply IH; auto. }
  intros results subdomains sensitiveData w'. by apply Hfold.
Qed.

End processURL_facts.

(** ** The scope filters *)

Lemma elem_of_List_filter (keep : string → bool) (l : list string) (x : string) :
  x ∈ List.filter keep l ↔ x ∈ l ∧ keep x = true.
Proof. rewrite !list_elem_of_In. apply filter_In. Qed.

Lemma filterLinks_elem_of (links : list string) (baseURL L : string) :
  L ∈ filterLinks links baseURL ↔
  L ∈ links ∧ strings.Contains L (extractDomain baseURL) = true.
Proof. by rewrite filterLinks_firsts, elem_of_firsts, elem_of_List_filter. Qed.

Lemma filterSubdomains_elem_of (subdomains : list string) (baseURL S : string) :
  S ∈ filterSubdomains subdomains baseURL ↔
  S ∈ subdomains ∧ strings.HasSuffix S (extractDomain baseURL) = true.
Proof. by rewrite filterSubdomains_firsts, elem_of_firsts, elem_of_List_filter. Qed.

Example demo_processURL :
  processURL demoFetch ["SECRET_KEY"] "https://x.com" tt = (Some demoResult, tt).
Proof. vm_compute. reflexivity. Qed.

(** What passes a scope filter and [removeDuplicates] is in scope, for any
    list of candidates. *)
Lemma filtered_links_contain_domain (links : list string) (baseURL L : string) :
  L ∈ removeDuplicates (filterLinks links baseURL) →
  ∃ pre post, L = pre +:+ extractDomain baseURL +:+ post.
Proof.
  rewrite removeDuplicates_elem_of, filterLinks_elem_of.
  intros [_ Hc]. by apply Contains_spec.
Qed.

Lemma filtered_subdomains_end_with_domain (subdomains : list string)
    (baseURL S : string) :
  S ∈ removeDuplicates (filterSubdomains subdomains baseURL) →
  ∃ pre, S = pre +:+ extractDomain baseURL.
Proof.
  rewrite removeDuplicates_elem_of, filterSubdomains_elem_of.
  intros [_ Hc]. by apply HasSuffix_spec.
Qed.

(** ** Loops that append *)

Lemma fold_left_append_map {A B : Type} (f : A → B) (p : A → bool)
    (l : list A) (acc : list B) :
  fold_left (fun acc x => if p x then acc ++ [f x] else acc) l acc
  = acc ++ map f (List.filter p l).
Proof.
  revert acc. induction l as [|x l IH]; intros acc; simpl.
  - by rewrite app_nil_r.
  - rewrite IH. destruct (p x); [|done]. simpl. by rewrite <- app_assoc.
Qed.

Lemma fold_left_ext {A B : Type} (f g : A → B → A) (l : list B) (a : A) :
  (∀ a b, f a b = g a b) → fold_left f l a = fold_left g l a.
Proof.
  intros Hfg. revert a. induction l as [|b l IH]; intros a; simpl; [done|].
  by rewrite Hfg, IH.
Qed.

Lemma fold_left_append_all {A B : Type} (f : A → B) (l : list A) (acc : list B) :
  fold_left (fun acc x => acc ++ [f x]) l acc = acc ++ map f l.
Proof.
  revert acc. induction l as [|x l IH]; intros acc; simpl.
  - by rewrite app_nil_r.
  - rewrite IH. by rewrite <- app_assoc.
Qed.

(** ** Labels of a host name *)

Lemma Split_nonempty (s : string) (sep : ascii) : strings.Split s sep ≠ [].
Proof. destruct s as [|c s]; simpl; [done|]. destruct (Ascii.eqb c sep), (strings.Split s sep); done. Qed.

(** Joining the pieces of [strings.Split] with the separator gives the
    string back, and no piece holds the separator. *)
Lemma Split_concat (s : string) (sep : ascii) :
  String.concat (String sep "") (strings.Split s sep) = s.
Proof.
  induction s as [|c s IH]; [reflexivity|]. simpl.
  pose proof (Split_nonempty s sep) as Hne.
  destruct (Ascii.eqb_spec c sep) as [->|Hc].
  - destruct (strings.Split s sep) as [|p ps]; [done|].
    change (String.concat (String sep "") ("" :: p :: ps))
      with ("" +:+ String sep "" +:+ String.concat (String sep "") (p :: ps)).
    by rewrite IH.
  - destruct (strings.Split s sep) as [|p ps]; [done|].
    destruct ps as [|p' ps]; simpl in *; [by rewrite IH|].
    rewrite app_cons. by rewrite IH.
Qed.

Lemma Split_no_sep (s : string) (sep : ascii) :
  Forall (fun piece => strings.Count piece sep = 0) (strings.Split s sep).
Proof.
  induction s as [|c s IH]; simpl; [by repeat constructor|].
  destruct (Ascii.eqb c sep) eqn:Hc; [by constructor|].
  destruct (strings.Split s sep) as [|p ps]; simpl.
  - repeat constructor. simpl. by rewrite Hc.
  - inversion IH as [|? ? Hp Hps]; subst. constructor; [|done].
    simpl. by rewrite Hc.
Qed.

Lemma last_two {A : Type} (d : A) (l : list A) :
  2 ≤ length l →
  ∃ front a b, l = front ++ [a; b] ∧
    nth (length l - 2) l d = a ∧ nth (length l - 1) l d = b.
Proof.
  induction l as [|x l IH]; simpl; [lia|]. intros Hlen.
  destruct l as [|y l]; simpl in *; [lia|].
  destruct l as [|z l].
  - by exists [], x, y.
  - destruct IH as (front & a & b & Heq & Ha & Hb); [simpl; lia|].
    exists (x :: front), a, b. rewrite Heq at 1. split; [done|].
    simpl in Ha, Hb. rewrite Nat.sub_0_r in *. simpl. split; [|done].
    destruct (length l); done.
Qed.

(** ** The sensitive-data matcher *)

Lemma findSensitiveData_map (sensitiveWords : list string) (jsContent jsFile : string) :
  findSensitiveData sensitiveWords jsContent jsFile =
  map (fun word => finding word jsFile)
      (List.filter (strings.Contains jsContent) sensitiveWords).
Proof.
  unfold findSensitiveData.
  apply (fold_left_append_map (fun word => finding word jsFile)
           (strings.Contains jsContent) sensitiveWords []).
Qed.

(** A finding names one word and one script. *)
Lemma finding_inj_word (w1 w2 jsFile : string) :
  finding w1 jsFile = finding w2 jsFile → w1 = w2.
Proof.
  unfold finding. intros H.
  apply (inj (String.app diamond)), (inj (String.app " ")) in H.
  by apply app_inv_tail_s in H.
Qed.

(** ** The script pattern *)

Lemma star_S body k fuel st :
  regexp.star body k (S fuel) st =
  match body st (fun st1 =>
          if String.length (regexp.rest st1) <? String.length (regexp.rest st)
          then regexp.star body k fuel st1 else None) with
  | Some st' => Some st'
  | None => k st
  end.
Proof. reflexivity. Qed.

Lemma run_Class p st k :
  regexp.run (regexp.Class p) st k =
  match regexp.rest st with
  | String c s' =>
      if p c
      then k {| regexp.prev := Some c; regexp.rest := s';
                regexp.group := regexp.group st |}
      else None
  | EmptyString => None
  end.
Proof. reflexivity. Qed.

Lemma star_Class p k fuel before s g :
  String.length s ≤ fuel →
  regexp.star (regexp.run (regexp.Class p)) k fuel
    {| regexp.prev := before; regexp.rest := s; regexp.group := g |}
  = starClass p k before s g.
Proof.
  revert before s. induction fuel as [|fuel IH]; intros before s Hlen.
  - destruct s; [done|simpl in Hlen; lia].
  - rewrite star_S, run_Class. cbn [regexp.rest regexp.group].
    destruct s as [|c s]; [done|]. cbn [starClass].
    destruct (p c); [|done].
    assert ((String.length s <? String.length (String c s)) = true) as ->
      by (apply Nat.ltb_lt; simpl; lia).
    rewrite IH by (simpl in Hlen; lia). done.
Qed.

Lemma run_Star_Class p st k :
  regexp.run (regexp.Star (regexp.Class p)) st k =
  starClass p k (regexp.prev st) (regexp.rest st) (regexp.group st).
Proof. destruct st as [before s g]. by apply star_Class. Qed.

(** Where the star can stop: after a run of bytes of the class, at a place
    the continuation accepts. *)
Lemma starClass_Some p k before s g st :
  starClass p k before s g = Some st →
  ∃ taken s' before',
    s = taken +:+ s' ∧ all_bytes p taken = true ∧
    k {| regexp.prev := before'; regexp.rest := s'; regexp.group := g |} = Some st.
Proof.
  revert before. induction s as [|c s IH]; intros before; cbn [starClass].
  - intros Hk. by exists "", "", before.
  - destruct (p c) eqn:Hc.
    + destruct (starClass p k (Some c) s g) as [st1|] eqn:Hstar.
      * intros [= <-]. destruct (IH _ Hstar) as (taken & s' & before' & -> & Hall & Hk).
        exists (String c taken), s', before'. rewrite app_cons. simpl.
        by rewrite Hc, Hall.
      * intros Hk. by exists "", (String c s), before.
    + intros Hk. by exists "", (String c s), before.
Qed.

Lemma run_Cat r1 r2 st k :
  regexp.run (regexp.Cat r1 r2) st k
  = regexp.run r1 st (fun st1 => regexp.run r2 st1 k).
Proof. reflexivity. Qed.

Lemma run_Capture r st k :
  regexp.run (regexp.Capture r) st k
  = regexp.run r st (fun st1 =>
      k {| regexp.prev := regexp.prev st1; regexp.rest := regexp.rest st1;
           regexp.group := Some (regexp.consumed st st1) |}).
Proof. reflexivity. Qed.

(** A literal matches the text that starts with it, and nothing else. *)
Lemma run_Str lit before t g k :
  regexp.run (regexp.Str lit)
    {| regexp.prev := before; regexp.rest := lit +:+ t; regexp.group := g |} k
  = k {| regexp.prev := last_byte before lit; regexp.rest := t; regexp.group := g |}.
Proof.
  revert before. induction lit as [|c lit IH]; intros before; [done|].
  cbn [regexp.Str]. rewrite run_Cat. unfold regexp.Lit. rewrite run_Class.
  rewrite app_cons. cbn [regexp.rest regexp.group last_byte].
  rewrite Ascii.eqb_refl. apply IH.
Qed.

Lemma run_Str_Some lit before s g k st :
  regexp.run (regexp.Str lit)
    {| regexp.prev := before; regexp.rest := s; regexp.group := g |} k = Some st →
  ∃ t, s = lit +:+ t ∧
       k {| regexp.prev := last_byte before lit; regexp.rest := t;
            regexp.group := g |} = Some st.
Proof.
  revert before s. induction lit as [|c lit IH]; intros before s.
  - intros Hk. by exists s.
  - cbn [regexp.Str]. rewrite run_Cat. unfold regexp.Lit. rewrite run_Class.
    cbn [regexp.rest regexp.group]. destruct s as [|d s]; [done|].
    destruct (Ascii.eqb_spec c d) as [<-|Hne]; [|done].
    intros Hrun. destruct (IH _ _ Hrun) as (t & -> & Hk).
    exists t. by rewrite app_cons.
Qed.

Lemma not_dquote_js : all_bytes not_dquote ".js" = true.
Proof. reflexivity. Qed.

Lemma all_bytes_app p s t :
  all_bytes p (s +:+ t) = all_bytes p s && all_bytes p t.
Proof.
  induction s as [|c s IH]; [done|]. rewrite app_cons. simpl.
  by rewrite IH, andb_assoc.
Qed.

(** After the class, the star of the script pattern stops right before the
    closing [.js] and quote. *)
Lemma starClass_dotjs k before stem post g st :
  all_bytes not_dquote stem = true →
  k {| regexp.prev := Some "s"%char; regexp.rest := String dquote post;
       regexp.group := g |} = Some st →
  starClass not_dquote (fun st1 => regexp.run (regexp.Str ".js") st1 k)
    before (stem +:+ ".js" +:+ String dquote post) g = Some st.
Proof.
  intros Hstem Hk. revert before.
  induction stem as [|c stem IH]; intros before.
  - rewrite app_empty_l, !app_cons, app_empty_l. simpl. exact Hk.
  - simpl in Hstem. apply andb_true_iff in Hstem as [Hc Hstem].
    rewrite app_cons. cbn [starClass]. rewrite Hc. by rewrite IH.
Qed.

(** The script pattern matches a double-quoted [src] attribute whose value
    is a stem of one byte or more, free of double quotes, followed by
    [.js]; the group is the value. *)
Lemma jsFileRe_matchAt before stem post :
  stem ≠ "" →
  all_bytes not_dquote stem = true →
  regexp.matchAt jsFileRe before (srcAttr (stem +:+ ".js") post)
  = Some {| regexp.prev := Some dquote; regexp.rest := post;
            regexp.group := Some (stem +:+ ".js") |}.
Proof.
  intros Hne Hstem. destruct stem as [|c stem]; [done|].
  simpl in Hstem. apply andb_true_iff in Hstem as [Hc Hstem].
  unfold regexp.matchAt, jsFileRe, srcAttr.
  rewrite run_Cat, run_Str. cbn [last_byte].
  rewrite run_Cat. unfold regexp.Lit at 1. rewrite run_Class.
  cbn [regexp.rest regexp.group]. rewrite Ascii.eqb_refl.
  rewrite run_Cat, run_Capture, run_Cat.
  unfold regexp.Plus. rewrite run_Cat, run_Class.
  rewrite app_assoc_s, app_cons.
  cbn [regexp.rest regexp.group]. rewrite Hc.
  rewrite run_Star_Class. cbn [regexp.prev regexp.rest regexp.group].
  apply starClass_dotjs; [done|].
  unfold regexp.Lit. rewrite run_Class. cbn [regexp.rest regexp.group regexp.prev].
  rewrite Ascii.eqb_refl. do 2 f_equal.
  unfold regexp.consumed, strings.upto. cbn [regexp.rest].
  rewrite <- app_cons, <- app_assoc_s.
  rewrite (length_app_s _ (String dquote post)).
  replace (String.length (String c stem +:+ ".js") +
           String.length (String dquote post) - String.length (String dquote post))
    with (String.length (String c stem +:+ ".js")) by lia.
  by rewrite substring_app_l.
Qed.

Lemma run_Class_Some p before s g k st :
  regexp.run (regexp.Class p)
    {| regexp.prev := before; regexp.rest := s; regexp.group := g |} k = Some st →
  ∃ c t, s = String c t ∧ p c = true ∧
         k {| regexp.prev := Some c; regexp.rest := t; regexp.group := g |} = Some st.
Proof.
  rewrite run_Class. cbn [regexp.rest regexp.group].
  destruct s as [|c t]; [done|]. destruct (p c) eqn:Hc; [|done].
  intros Hk. by exists c, t.
Qed.

(** Conversely, whatever the script pattern matches is such an attribute. *)
Lemma jsFileRe_matchAt_Some before s st :
  regexp.matchAt jsFileRe before s = Some st →
  ∃ stem,
    stem ≠ "" ∧ all_bytes not_dquote stem = true ∧
    s = srcAttr (stem +:+ ".js") (regexp.rest st) ∧
    regexp.group st = Some (stem +:+ ".js").
Proof.
  unfold regexp.matchAt, jsFileRe. rewrite run_Cat. intros Hrun.
  apply run_Str_Some in Hrun as (s1 & -> & Hrun). rewrite run_Cat in Hrun.
  apply run_Class_Some in Hrun as (q & s2 & -> & Hq & Hrun).
  apply Ascii.eqb_eq in Hq as <-.
  rewrite run_Cat, run_Capture, run_Cat in Hrun. unfold regexp.Plus in Hrun.
  rewrite run_Cat in Hrun.
  apply run_Class_Some in Hrun as (c & s3 & -> & Hc & Hrun).
  rewrite run_Star_Class in Hrun. cbn [regexp.prev regexp.rest regexp.group] in Hrun.
  apply starClass_Some in Hrun as (taken & s4 & before' & -> & Htaken & Hrun).
  apply run_Str_Some in Hrun as (s5 & -> & Hrun).
  cbn [regexp.prev regexp.rest regexp.group] in Hrun.
  apply run_Class_Some in Hrun as (q & s6 & -> & Hq & Hrun).
  apply Ascii.eqb_eq in Hq as <-. injection Hrun as <-.
  cbn [regexp.rest regexp.group].
  exists (String c taken). split; [done|]. split; [simpl; by rewrite Hc, Htaken|].
  split.
  - unfold srcAttr. by rewrite !app_assoc_s, !app_cons.
  - f_equal. unfold regexp.consumed, strings.upto. cbn [regexp.rest].
    rewrite <- app_cons, <- !app_assoc_s.
    rewrite (length_app_s _ (String dquote s6)).
    replace (String.length ((String c taken) +:+ ".js") +
             String.length (String dquote s6) - String.length (String dquote s6))
      with (String.length (String c taken +:+ ".js")) by lia.
    by rewrite substring_app_l.
Qed.

(** ** Matches do not hide attributes

    A match of the script pattern that starts before an attribute ends
    before it: the only double quotes of a match are the two around the
    value. *)

Ltac norm_str H :=
  unfold srcAttr, dquote in H; rewrite ?app_cons, ?app_empty_l in H.

(** Closes a goal whose hypothesis [H] equates two texts that differ in one
    of their leading bytes. *)
Ltac clash H := exfalso; norm_str H; simplify_eq.

Lemma value_then_attr stem post2 pre v post :
  all_bytes not_dquote stem = true →
  stem +:+ ".js" +:+ String dquote post2 = pre +:+ srcAttr v post →
  String.length stem + 4 ≤ String.length pre.
Proof.
  revert pre. induction stem as [|c stem IH]; intros pre Hstem H.
  - destruct pre as [|p1 pre]; [clash H|].
    destruct pre as [|p2 pre]; [clash H|].
    destruct pre as [|p3 pre]; [clash H|].
    destruct pre as [|p4 pre]; [clash H|].
    simpl. lia.
  - simpl in Hstem. apply andb_true_iff in Hstem as [Hc Hstem].
    destruct pre as [|p1 pre].
    + destruct stem as [|c1 stem]; [clash H|].
      simpl in Hstem. apply andb_true_iff in Hstem as [Hc1 Hstem].
      destruct stem as [|c2 stem]; [clash H|].
      simpl in Hstem. apply andb_true_iff in Hstem as [Hc2 Hstem].
      destruct stem as [|c3 stem]; [clash H|].
      simpl in Hstem. apply andb_true_iff in Hstem as [Hc3 Hstem].
      destruct stem as [|c4 stem]; [clash H|].
      simpl in Hstem. apply andb_true_iff in Hstem as [Hc4 Hstem].
      clash H.
    + rewrite !app_cons in H. injection H as <- H.
      specialize (IH pre Hstem H). simpl. lia.
Qed.

Lemma length_srcAttr v post :
  String.length (srcAttr v post) = 6 + String.length v + String.length post.
Proof.
  unfold srcAttr. rewrite length_app_s. simpl. rewrite length_app_s. simpl. lia.
Qed.

Lemma match_before_attr stem post2 pre v post :
  all_bytes not_dquote stem = true →
  pre ≠ "" →
  srcAttr (stem +:+ ".js") post2 = pre +:+ srcAttr v post →
  String.length stem + 9 ≤ String.length pre.
Proof.
  intros Hstem Hpre H.
  destruct pre as [|p1 pre]; [done|].
  destruct pre as [|p2 pre]; [clash H|].
  destruct pre as [|p3 pre]; [clash H|].
  destruct pre as [|p4 pre]; [clash H|].
  destruct pre as [|p5 pre]; [clash H|].
  unfold srcAttr at 1 in H. rewrite !app_cons, app_empty_l in H.
  injection H as _ _ _ _ _ H. rewrite app_assoc_s in H.
  apply value_then_attr in H; [|done]. simpl. lia.
Qed.

Lemma scan_nil re before skip : regexp.scan re before "" skip = [].
Proof. by destruct skip. Qed.

Lemma scan_skip re before c s n :
  regexp.scan re before (String c s) (S n) = regexp.scan re (Some c) s n.
Proof. reflexivity. Qed.

Lemma scan_here re before c s :
  regexp.scan re before (String c s) 0 =
  match regexp.matchAt re before (String c s) with
  | Some st =>
      match String.length (String c s) - String.length (regexp.rest st) with
      | O => regexp.scan re (Some c) s 0
      | S n =>
          (strings.upto (String.length (String c s) - String.length (regexp.rest st))
                        (String c s), regexp.group st)
          :: regexp.scan re (Some c) s n
      end
  | None => regexp.scan re (Some c) s 0
  end.
Proof. reflexivity. Qed.

(** The scan of a page reports every double-quoted [src] attribute whose
    value is a quote-free stem of one byte or more followed by [.js]. *)
Lemma scan_finds_attr pre stem post before skip :
  stem ≠ "" →
  all_bytes not_dquote stem = true →
  skip ≤ String.length pre →
  (srcAttr (stem +:+ ".js") "", Some (stem +:+ ".js"))
    ∈ regexp.scan jsFileRe before (pre +:+ srcAttr (stem +:+ ".js") post) skip.
Proof.
  intros Hne Hstem. revert before skip.
  induction pre as [|c pre IH]; intros before skip Hskip.
  - simpl in Hskip. assert (skip = 0) as -> by lia. rewrite app_empty_l.
    pose proof (jsFileRe_matchAt before stem post Hne Hstem) as Hm.
    pose proof (length_srcAttr (stem +:+ ".js") post) as Hlen.
    destruct (srcAttr (stem +:+ ".js") post) as [|a s] eqn:Hs; [simpl in Hlen; lia|].
    rewrite scan_here, Hm. cbn [regexp.rest regexp.group].
    rewrite Hlen.
    replace (6 + String.length (stem +:+ ".js") + String.length post
             - String.length post)
      with (S (5 + String.length (stem +:+ ".js"))) by lia.
    replace (strings.upto (S (5 + String.length (stem +:+ ".js"))) (String a s))
      with (srcAttr (stem +:+ ".js") ""); [apply list_elem_of_here|].
    rewrite <- Hs. unfold strings.upto, srcAttr.
    replace (S (5 + String.length (stem +:+ ".js")))
      with (String.length ("src=" +:+ String dquote ((stem +:+ ".js") +:+ String dquote "")))
      by (rewrite length_app_s; simpl; rewrite length_app_s; simpl; lia).
    replace ("src=" +:+ String dquote ((stem +:+ ".js") +:+ String dquote post))
      with (("src=" +:+ String dquote ((stem +:+ ".js") +:+ String dquote "")) +:+ post).
    + by rewrite substring_app_l.
    + rewrite !app_assoc_s, !app_cons, !app_assoc_s, !app_cons. done.
  - rewrite app_cons. destruct skip as [|n].
    + rewrite scan_here.
      destruct (regexp.matchAt jsFileRe before
                  (String c (pre +:+ srcAttr (stem +:+ ".js") post)))
        as [st|] eqn:Hm; [|apply IH; lia].
      apply jsFileRe_matchAt_Some in Hm as (stem2 & _ & Hstem2 & Hs & _).
      pose proof Hs as Hover. rewrite <- app_cons in Hover. symmetry in Hover.
      apply match_before_attr in Hover; [|done..].
      rewrite Hs at 1. rewrite length_srcAttr, length_app_s.
      simpl in Hover. simpl String.length.
      destruct (_ - _) as [|n] eqn:Hn; [apply IH; lia|].
      apply list_elem_of_further, IH. lia.
    + rewrite scan_skip. apply IH. simpl in Hskip. lia.
Qed.

(** ** The script references *)

Lemma extractJSFiles_map (html baseURL : string) :
  extractJSFiles html baseURL = map (resolveScript baseURL) (jsCaptures html).
Proof.
  unfold extractJSFiles, jsCaptures. cbv zeta.
  generalize (regexp.FindAllStringSubmatch jsFileRe html) as matches.
  intros matches.
  rewrite (fold_left_ext _
             (fun jsFiles match_ =>
                jsFiles ++ [resolveScript baseURL (nth 1 match_ "")])).
  - by rewrite (fold_left_append_all
                  (fun match_ => resolveScript baseURL (nth 1 match_ ""))), map_map.
  - intros jsFiles match_. unfold resolveScript.
    by destruct (strings.HasPrefix (nth 1 match_ "") "http").
Qed.

Lemma jsCaptures_scan (html : string) :
  jsCaptures html =
  map (fun m => default "" (snd m)) (regexp.scan jsFileRe None html 0).
Proof.
  unfold jsCaptures, regexp.FindAllStringSubmatch. by rewrite map_map.
Qed.

(** Every double-quoted [src] attribute of a page whose value is a stem of
    one byte or more, free of double quotes, followed by [.js], is
    captured. *)
Lemma jsCaptures_attr (pre stem post : string) :
  stem ≠ "" →
  all_bytes not_dquote stem = true →
  stem +:+ ".js" ∈ jsCaptures (pre +:+ srcAttr (stem +:+ ".js") post).
Proof.
  intros Hne Hstem. rewrite jsCaptures_scan. apply list_elem_of_fmap.
  exists (srcAttr (stem +:+ ".js") "", Some (stem +:+ ".js")).
  split; [done|]. apply scan_finds_attr; [done..|lia].
Qed.

(** What is captured is the value of such an attribute. *)
Lemma scan_sound before s skip m :
  m ∈ regexp.scan jsFileRe before s skip →
  ∃ stem, stem ≠ "" ∧ all_bytes not_dquote stem = true ∧
          snd m = Some (stem +:+ ".js") ∧
          ∃ pre post, s = pre +:+ srcAttr (stem +:+ ".js") post.
Proof.
  revert before skip. induction s as [|c s IH]; intros before skip.
  - rewrite scan_nil. by intros ?%elem_of_nil.
  - assert (∀ before skip, m ∈ regexp.scan jsFileRe before s skip →
      ∃ stem, stem ≠ "" ∧ all_bytes not_dquote stem = true ∧
              snd m = Some (stem +:+ ".js") ∧
              ∃ pre post, String c s = pre +:+ srcAttr (stem +:+ ".js") post)
      as Hlater.
    { intros b k Hin. destruct (IH b k Hin) as (stem & ? & ? & ? & pre & post & ->).
      exists stem. repeat split; try done. by exists (String c pre), post. }
    destruct skip as [|n]; [|rewrite scan_skip; apply Hlater].
    rewrite scan_here.
    destruct (regexp.matchAt jsFileRe before (String c s)) as [st|] eqn:Hm;
      [|apply Hlater].
    destruct (_ - _) as [|n]; [apply Hlater|].
    intros [->|Hin]%elem_of_cons; [|by eapply Hlater].
    apply jsFileRe_matchAt_Some in Hm as (stem & Hne & Hstem & Hs & Hg).
    exists stem. repeat split; try done. by exists "", (regexp.rest st).
Qed.

Lemma jsCaptures_sound (html v : string) :
  v ∈ jsCaptures html →
  ∃ stem pre post, stem ≠ "" ∧ all_bytes not_dquote stem = true ∧
    v = stem +:+ ".js" ∧ html = pre +:+ srcAttr v post.
Proof.
  rewrite jsCaptures_scan. intros ([text g] & -> & Hin)%list_elem_of_fmap.
  apply scan_sound in Hin as (stem & Hne & Hstem & Hg & pre & post & ->).
  simpl in Hg. subst g. simpl. by exists stem, pre, post.
Qed.

(** ** No scope on script references *)

Lemma processURL_reports {World : Type}
    (fetch : string → World → option string * World)
    (sensitiveWords : list string) (targetURL : string) (w w1 : World)
    (body : string) :
  fetch targetURL w = (Some body, w1) →
  extractJSFiles body targetURL ≠ [] →
  ∃ rs w', processURL fetch sensitiveWords targetURL w = (Some rs, w') ∧
           JSFiles rs = removeDuplicates (extractJSFiles body targetURL).
Proof.
  intros Hfetch Hjs. unfold processURL. rewrite Hfetch.
  destruct (extractJSFiles body targetURL) as [|jsFile jsFiles]; [done|].
  simpl.
  destruct (scanScripts fetch sensitiveWords targetURL (jsFile :: jsFiles) w1)
    as [[[results subdomains] sensitiveData] w2].
  by eexists _, _.
Qed.

(** ** Fragments

    What [cleanURL] returns for a URL that parses holds no number sign:
    the fragment is gone, and every other part is written with its number
    signs escaped. *)

Lemma all_bytes_substring p n m s :
  all_bytes p s = true → all_bytes p (String.substring n m s) = true.
Proof.
  revert n m. induction s as [|c s IH]; intros n m Hs.
  - by destruct n, m.
  - simpl in Hs. apply andb_true_iff in Hs as [Hc Hs].
    destruct n as [|n]; simpl.
    + destruct m as [|m]; [done|]. simpl. rewrite Hc. by apply IH.
    + by apply IH.
Qed.

Lemma all_bytes_Cut p s sep before after found :
  strings.Cut s sep = (before, after, found) →
  all_bytes p s = true →
  all_bytes p before = true ∧ all_bytes p after = true.
Proof.
  revert before. induction s as [|c s IH]; intros before; simpl.
  - by intros [= <- <- <-].
  - intros Hcut Hs. apply andb_true_iff in Hs as [Hc Hs].
    destruct (Ascii.eqb c sep); [by injection Hcut as <- <- <-|].
    destruct (strings.Cut s sep) as [[b a] f]. injection Hcut as <- <- <-.
    destruct (IH b eq_refl Hs) as [Hb Ha]. simpl. by rewrite Hc, Hb.
Qed.

Lemma Cut_before_free s sep before after found :
  strings.Cut s sep = (before, after, found) →
  all_bytes (fun c => negb (Ascii.eqb c sep)) before = true.
Proof.
  revert before. induction s as [|c s IH]; intros before; simpl.
  - by intros [= <- <- <-].
  - destruct (Ascii.eqb c sep) eqn:Hc; [by intros [= <- <- <-]|].
    destruct (strings.Cut s sep) as [[b a] f]. intros [= <- <- <-].
    simpl. rewrite Hc. simpl. by apply IH.
Qed.

Lemma hash_free_ToLower s : hash_free s = true → hash_free (strings.ToLower s) = true.
Proof.
  unfold hash_free. induction s as [|c s IH]; [done|]. simpl.
  intros [Hc Hs]%andb_true_iff. rewrite IH by done. rewrite andb_true_r.
  revert Hc. clear. destruct c as [[][][][][][][][]]; by vm_compute.
Qed.

Lemma hash_free_escape s mode : hash_free (url.escape s mode) = true.
Proof.
  unfold hash_free. induction s as [|c s IH]; [done|].
  assert (all_bytes not_hash (url.escape (String c "") mode) = true) as Hc.
  { clear. destruct mode, c as [[][][][][][][][]]; by vm_compute. }
  revert Hc. simpl. destruct (url.shouldEscape c mode), mode; simpl;
    try destruct (Ascii.eqb c " "); simpl; rewrite ?IH, ?andb_true_r; try done.
Qed.

Lemma hash_free_validEncoded s mode :
  url.validEncoded s mode = true → hash_free s = true.
Proof.
  unfold hash_free. induction s as [|c s IH]; [done|]. simpl.
  intros [Hc Hs]%andb_true_iff. rewrite IH by done. rewrite andb_true_r.
  destruct (Ascii.eqb_spec c "#") as [->|Hne].
  - exfalso. revert Hc. clear. destruct mode; by vm_compute.
  - unfold not_hash. by destruct (Ascii.eqb_spec c "#").
Qed.

Lemma hash_free_app s t : hash_free (s +:+ t) = hash_free s && hash_free t.
Proof. apply all_bytes_app. Qed.

Lemma hash_free_getScheme_from i s rawURL scheme rest :
  hash_free s = true → hash_free rawURL = true →
  url.getScheme_from i s rawURL = Some (scheme, rest) →
  hash_free scheme = true ∧ hash_free rest = true.
Proof.
  revert i. induction s as [|c s IH]; intros i.
  - by intros _ ? [= <- <-].
  - intros [Hc Hs]%andb_true_iff Hraw. cbn [url.getScheme_from].
    destruct (is_lower c || is_upper c); [by apply IH|].
    destruct (is_digit c || one_of "+-." c).
    { destruct (i =? 0); [by intros [= <- <-]|by apply IH]. }
    destruct (Ascii.eqb c ":").
    { destruct (i =? 0); [done|]. intros [= <- <-].
      split; [by apply all_bytes_substring|done]. }
    by intros [= <- <-].
Qed.

Lemma parse_fragmentless rawURL u :
  hash_free rawURL = true → url.parse rawURL = Some u → fragmentless u.
Proof.
  intros Hraw. unfold url.parse.
  destruct (url.stringContainsCTLByte rawURL); [done|].
  destruct (String.eqb rawURL "*"); [by intros [= <-]|].
  destruct (url.getScheme rawURL) as [[scheme0 rest0]|] eqn:Hget; [|done].
  apply hash_free_getScheme_from in Hget as [Hscheme Hrest]; [|done..].
  apply hash_free_ToLower in Hscheme.
  destruct (_ && _) eqn:Hq at 1.
  - assert (hash_free (strings.upto (String.length rest0 - 1) rest0) = true) as Hrest1
      by by apply all_bytes_substring.
    revert Hrest1. generalize (strings.upto (String.length rest0 - 1) rest0) as rest1.
    intros rest1 Hrest1. cbv zeta.
    repeat (case_match; simplify_eq); intros; simplify_eq; by repeat split.
  - destruct (strings.Cut rest0 "?") as [[rest1 rawQuery] f] eqn:Hcut.
    apply (all_bytes_Cut not_hash) in Hcut as [Hrest1 Hquery]; [|done].
    cbv zeta.
    repeat (case_match; simplify_eq); intros; simplify_eq; by repeat split.
Qed.

Lemma Parse_fragmentless rawURL u :
  url.Parse rawURL = Some u → fragmentless u.
Proof.
  unfold url.Parse.
  destruct (strings.Cut rawURL "#") as [[before frag] found] eqn:Hcut.
  apply Cut_before_free in Hcut.
  destruct (url.parse before) as [parsed|] eqn:Hparse; [|done].
  apply parse_fragmentless in Hparse; [|done].
  destruct (String.eqb frag ""); [by intros [= <-]|].
  destruct (url.setFragment frag) as [[fragment rawFragment]|]; [|done].
  by intros [= <-].
Qed.

Lemma hash_free_EscapedPath u : hash_free (url.EscapedPath u) = true.
Proof.
  unfold url.EscapedPath.
  assert (hash_free (if String.eqb (url.Path u) "*" then "*"
                     else url.escape (url.Path u) url.encodePath) = true) as Hfall.
  { destruct (String.eqb (url.Path u) "*"); [done|apply hash_free_escape]. }
  destruct (negb _ && _) eqn:Hraw; [|done].
  apply andb_true_iff in Hraw as [_ Hvalid].
  destruct (url.unescape (url.RawPath u) url.encodePath) as [p|]; [|done].
  destruct (String.eqb p (url.Path u)); [|done].
  by eapply hash_free_validEncoded.
Qed.

(** A URL that holds no fragment is written without a number sign. *)
Lemma String_fragmentless u :
  fragmentless u → url.Fragment u = "" → hash_free (url.String_ u) = true.
Proof.
  intros (Hscheme & Hopaque & Hquery) Hfrag. unfold url.String_. rewrite Hfrag.
  cbv zeta. change (String.eqb "" "") with true. cbn [negb].
  rewrite !hash_free_app.
  assert (hash_free (if String.eqb (url.Scheme u) "" then ""
                     else url.Scheme u +:+ ":") = true) as Hs.
  { destruct (String.eqb (url.Scheme u) ""); [done|].
    by rewrite hash_free_app, Hscheme. }
  repeat (apply andb_true_iff; split).
  - destruct (negb (String.eqb (url.Opaque u) "")).
    + by rewrite hash_free_app, Hs, Hopaque.
    + rewrite !hash_free_app, Hs, hash_free_EscapedPath, andb_true_r. simpl.
      repeat (apply andb_true_iff; split).
      * destruct (_ || _); [|done]. destruct (_ && _); [done|].
        rewrite !hash_free_app. repeat (apply andb_true_iff; split).
        -- by destruct (_ || _).
        -- destruct (url.User u) as [ui|]; [|done].
           rewrite hash_free_app. unfold url.Userinfo_String.
           rewrite hash_free_app, hash_free_escape.
           destruct (url.passwordSet ui); [|done].
           by rewrite hash_free_app, hash_free_escape.
        -- destruct (String.eqb (url.Host u) ""); [done|apply hash_free_escape].
      * by destruct (_ && _).
      * by destruct (_ && _).
  - destruct (_ || _); [|done]. by rewrite hash_free_app, Hquery.
  - done.
Qed.

(** * The claims *)

(** C1: every link [processURL] reports for a target comes out of
    [filterLinks] applied to [extractLinks] of one of its scripts, and
    contains the target's domain, [extractDomain] of the target URL, as a
    substring. *)
Theorem links_contain_domain {World : Type}
    (fetch : string → World → option string * World)
    (sensitiveWords : list string) (targetURL : string) (w w' : World)
    (rs : ResultSet) (L : string) :
  processURL fetch sensitiveWords targetURL w = (Some rs, w') →
  L ∈ Links rs →
  (∃ jsContent, L ∈ filterLinks (extractLinks jsContent targetURL) targetURL) ∧
  ∃ pre post, L = pre +:+ extractDomain targetURL +:+ post.
Proof.
  intros Hrun HL.
  apply processURL_Some in Hrun
    as (body & w1 & results & subdomains & sensitiveData & _ & _ & Hscan & ->).
  simpl in HL. rewrite removeDuplicates_elem_of in HL.
  assert (Forall (fun L => ∃ jsContent,
            L ∈ filterLinks (extractLinks jsContent targetURL) targetURL) results)
    as Hall.
  { apply (scanScripts_keeps fetch sensitiveWords
             (fun r _ _ => Forall (fun L => ∃ jsContent,
                L ∈ filterLinks (extractLinks jsContent targetURL) targetURL) r)
             targetURL) in Hscan; [done|constructor|].
    intros r _ _ _ jsContent Hr. apply Forall_app. split; [done|].
    apply Forall_forall. intros x Hx. by exists jsContent. }
  rewrite Forall_forall in Hall. destruct (Hall L HL) as [jsContent Hin].
  split; [by exists jsContent|].
  apply filterLinks_elem_of in Hin as [_ Hc]. by apply Contains_spec.
Qed.

Lemma links_contain_domain_witness :
  processURL demoFetch ["SECRET_KEY"] "https://x.com" tt = (Some demoResult, tt) ∧
  "https://api.x.com/v1" ∈ Links demoResult ∧
  ∃ pre post, "https://api.x.com/v1" = pre +:+ extractDomain "https://x.com" +:+ post.
Proof.
  assert (processURL demoFetch ["SECRET_KEY"] "https://x.com" tt
          = (Some demoResult, tt)) as Hrun by (vm_compute; reflexivity).
  assert ("https://api.x.com/v1" ∈ Links demoResult) as Hin
    by (simpl; apply list_elem_of_here).
  split; [exact Hrun|]. split; [exact Hin|].
  exact (proj2 (links_contain_domain demoFetch ["SECRET_KEY"] "https://x.com"
                  tt tt demoResult "https://api.x.com/v1" Hrun Hin)).
Defined.

(** The fragment can be the only place of a link that names the domain:
    [extractLinks] accepts the link and strips the fragment, and
    [filterLinks] drops what is left. *)
Example filterLinks_checks_again :
  extractLinks "go to https://evil.org/#x.com now" "https://x.com"
  = ["https://evil.org/"] ∧
  filterLinks (extractLinks "go to https://evil.org/#x.com now" "https://x.com")
              "https://x.com"
  = [].
Proof. by vm_compute. Qed.

(** C2: every subdomain [processURL] reports for a target comes out of
    [filterSubdomains] applied to [extractSubdomains] of one of its scripts,
    and ends with the target's domain. *)
Theorem subdomains_end_with_domain {World : Type}
    (fetch : string → World → option string * World)
    (sensitiveWords : list string) (targetURL : string) (w w' : World)
    (rs : ResultSet) (S : string) :
  processURL fetch sensitiveWords targetURL w = (Some rs, w') →
  S ∈ Subdomains rs →
  (∃ jsContent,
     S ∈ filterSubdomains (extractSubdomains jsContent targetURL) targetURL) ∧
  ∃ pre, S = pre +:+ extractDomain targetURL.
Proof.
  intros Hrun HS.
  apply processURL_Some in Hrun
    as (body & w1 & results & subdomains & sensitiveData & _ & _ & Hscan & ->).
  simpl in HS. rewrite removeDuplicates_elem_of in HS.
  assert (Forall (fun S => ∃ jsContent,
            S ∈ filterSubdomains (extractSubdomains jsContent targetURL) targetURL)
            subdomains) as Hall.
  { apply (scanScripts_keeps fetch sensitiveWords
             (fun _ s _ => Forall (fun S => ∃ jsContent,
                S ∈ filterSubdomains (extractSubdomains jsContent targetURL)
                      targetURL) s)
             targetURL) in Hscan; [done|constructor|].
    intros _ s _ _ jsContent Hs. apply Forall_app. split; [done|].
    apply Forall_forall. intros x Hx. by exists jsContent. }
  rewrite Forall_forall in Hall. destruct (Hall S HS) as [jsContent Hin].
  split; [by exists jsContent|].
  apply filterSubdomains_elem_of in Hin as [_ Hc]. by apply HasSuffix_spec.
Qed.

Lemma subdomains_end_with_domain_witness :
  processURL demoFetch ["SECRET_KEY"] "https://x.com" tt = (Some demoResult, tt) ∧
  "api.x.com" ∈ Subdomains demoResult ∧
  ∃ pre, "api.x.com" = pre +:+ extractDomain "https://x.com".
Proof.
  assert (processURL demoFetch ["SECRET_KEY"] "https://x.com" tt
          = (Some demoResult, tt)) as Hrun by (vm_compute; reflexivity).
  assert ("api.x.com" ∈ Subdomains demoResult) as Hin
    by (simpl; apply list_elem_of_here).
  split; [exact Hrun|]. split; [exact Hin|].
  exact (proj2 (subdomains_end_with_domain demoFetch ["SECRET_KEY"] "https://x.com"
                  tt tt demoResult "api.x.com" Hrun Hin)).
Defined.

(** C3, as stated, fails: for the page [<script src=Q/app.jsQ>] ([Q] the
    double quote) and the target [https://x.com], [extractJSFiles] does not
    yield [https://x.com/app.js]. *)
Lemma extractJSFiles_root_relative_counterexample :
  extractJSFiles ("<script src=" +:+ String dquote "/app.js" +:+ String dquote ">")
                 "https://x.com"
  ≠ ["https://x.com/app.js"].
Proof. vm_compute. discriminate. Qed.

(** C3, amended: for that page and target [extractJSFiles] yields the
    single reference [https://x.com//app.js], the separator standing in
    front of the slash the captured path brings; in general every captured
    value that does not begin with [http] is appended to the target URL
    after one [/], a value that does is taken as it is, and [cleanURL]
    strips the fragment of the result. *)
Theorem extractJSFiles_concatenates :
  extractJSFiles ("<script src=" +:+ String dquote "/app.js" +:+ String dquote ">")
                 "https://x.com"
  = ["https://x.com//app.js"] ∧
  jsCaptures ("<script src=" +:+ String dquote "/app.js" +:+ String dquote ">")
  = ["/app.js"] ∧
  ∀ html baseURL : string,
    extractJSFiles html baseURL =
    map (fun jsFile =>
           cleanURL (if strings.HasPrefix jsFile "http" then jsFile
                     else baseURL +:+ "/" +:+ jsFile))
        (jsCaptures html).
Proof.
  split; [by vm_compute|]. split; [by vm_compute|].
  intros html baseURL. apply extractJSFiles_map.
Qed.

Example extractJSFiles_demo :
  extractJSFiles
    ("<script src=" +:+ String dquote "js/a#b.js" +:+ String dquote "></script>" +:+
     "<script src=" +:+ String dquote "http://y.org/c.js" +:+ String dquote "></script>" +:+
     "<script src='d.js'></script>")
    "https://x.com/shop"
  = ["https://x.com/shop/js/a"; "http://y.org/c.js"].
Proof. by vm_compute. Qed.

(** C4: [extractDomain] returns the last two dot-separated labels of the
    host name joined by a dot when the host name has at least two labels,
    the host name itself when it has fewer, and the empty string when the
    URL does not parse; for [https://sub.example.com/a] it returns
    [example.com]. *)
Theorem extractDomain_last_two_labels :
  (∀ rawURL : string,
     match url.Parse rawURL with
     | None => extractDomain rawURL = ""
     | Some u =>
         let host := url.Hostname u in
         let labels := strings.Split host "." in
         String.concat "." labels = host ∧
         Forall (fun label => strings.Count label "." = 0) labels ∧
         (2 ≤ length labels →
          ∃ front a b, labels = front ++ [a; b] ∧
                       extractDomain rawURL = a +:+ "." +:+ b) ∧
         (length labels < 2 → extractDomain rawURL = host)
     end) ∧
  extractDomain "https://sub.example.com/a" = "example.com".
Proof.
  split; [|vm_compute; reflexivity].
  intros rawURL. unfold extractDomain.
  destruct (url.Parse rawURL) as [u|]; [|done]. cbv zeta.
  split; [apply Split_concat|]. split; [apply Split_no_sep|].
  destruct (Nat.leb_spec 2 (length (strings.Split (url.Hostname u) "."))) as [Hge|Hlt].
  - split; [|lia]. intros _.
    destruct (last_two "" _ Hge) as (front & a & b & Heq & Ha & Hb).
    exists front, a, b. split; [exact Heq|]. by rewrite Ha, Hb.
  - split; [lia|done].
Qed.

Lemma extractDomain_last_two_labels_witness :
  url.Parse "https://sub.example.com/a"
    = Some {| url.Scheme := "https"; url.Opaque := ""; url.User := None;
              url.Host := "sub.example.com"; url.Path := "/a";
              url.RawPath := ""; url.OmitHost := false;
              url.ForceQuery := false; url.RawQuery := "";
              url.Fragment := ""; url.RawFragment := "" |} ∧
  2 ≤ length (strings.Split "sub.example.com" ".") ∧
  ∃ front a b,
    strings.Split "sub.example.com" "." = front ++ [a; b] ∧
    extractDomain "https://sub.example.com/a" = a +:+ "." +:+ b.
Proof.
  assert (url.Parse "https://sub.example.com/a"
    = Some {| url.Scheme := "https"; url.Opaque := ""; url.User := None;
              url.Host := "sub.example.com"; url.Path := "/a";
              url.RawPath := ""; url.OmitHost := false;
              url.ForceQuery := false; url.RawQuery := "";
              url.Fragment := ""; url.RawFragment := "" |}) as HP
    by (vm_compute; reflexivity).
  assert (2 ≤ length (strings.Split "sub.example.com" ".")) as Hlen
    by (simpl; lia).
  split; [exact HP|]. split; [exact Hlen|].
  pose proof (proj1 extractDomain_last_two_labels "https://sub.example.com/a") as H.
  rewrite HP in H. destruct H as (_ & _ & H & _). exact (H Hlen).
Defined.

Example extractDomain_demo :
  extractDomain "http://localhost:8080/x" = "localhost" ∧
  extractDomain "https://a.b.example.co.uk/" = "co.uk" ∧
  extractDomain "http://[::1" = "" ∧
  url.Parse "http://[::1" = None.
Proof. vm_compute. done. Qed.

(** C5: [cleanURL] parses the URL, empties its fragment and writes it out
    again, so that the result holds no number sign; text that does not
    parse is returned unchanged; for [https://x.com/a#frag] it returns
    [https://x.com/a]. *)
Theorem cleanURL_clears_fragment :
  (∀ dirtyURL : string,
     match url.Parse dirtyURL with
     | None => cleanURL dirtyURL = dirtyURL
     | Some u =>
         cleanURL dirtyURL = url.String_ (url.with_Fragment "" u) ∧
         url.Fragment (url.with_Fragment "" u) = "" ∧
         hash_free (cleanURL dirtyURL) = true
     end) ∧
  cleanURL "https://x.com/a#frag" = "https://x.com/a".
Proof.
  split; [|vm_compute; reflexivity].
  intros dirtyURL. unfold cleanURL.
  destruct (url.Parse dirtyURL) as [u|] eqn:HP; [|done].
  split; [done|]. split; [done|].
  apply String_fragmentless; [|done].
  apply Parse_fragmentless in HP. exact HP.
Qed.

Example cleanURL_demo :
  cleanURL "http://[::1" = "http://[::1" ∧
  cleanURL "HTTP://x.com/a b#c" = "http://x.com/a%20b" ∧
  cleanURL "https://x.com/a?q=1#" = "https://x.com/a?q=1".
Proof. vm_compute. done. Qed.

(** C6: when [extractDomain] gives the empty string for the target, both
    scope filters keep every string of every input list and only drop
    repeats: each returns the first occurrences of its input, in order. *)
Theorem empty_domain_filters_keep_all (targetURL : string) (l : list string) :
  extractDomain targetURL = "" →
  filterLinks l targetURL = firsts l ∧
  filterSubdomains l targetURL = firsts l ∧
  (∀ x, x ∈ l → x ∈ filterLinks l targetURL ∧ x ∈ filterSubdomains l targetURL).
Proof.
  intros Hdom.
  assert (filterLinks l targetURL = firsts l) as HL.
  { rewrite filterLinks_firsts, Hdom. f_equal.
    rewrite <- (filter_true l) at 2. apply filter_ext.
    intros x. apply Contains_empty. }
  assert (filterSubdomains l targetURL = firsts l) as HS.
  { rewrite filterSubdomains_firsts, Hdom. f_equal.
    rewrite <- (filter_true l) at 2. apply filter_ext.
    intros x. apply HasSuffix_empty. }
  split; [done|]. split; [done|].
  intros x Hx. rewrite HL, HS. by rewrite elem_of_firsts.
Qed.

Lemma empty_domain_filters_keep_all_witness :
  extractDomain "http://[::1" = "" ∧
  filterLinks ["b"; "a"; "b"] "http://[::1" = firsts ["b"; "a"; "b"] ∧
  filterSubdomains ["b"; "a"; "b"] "http://[::1" = firsts ["b"; "a"; "b"] ∧
  (∀ x, x ∈ ["b"; "a"; "b"] →
        x ∈ filterLinks ["b"; "a"; "b"] "http://[::1" ∧
        x ∈ filterSubdomains ["b"; "a"; "b"] "http://[::1").
Proof.
  assert (extractDomain "http://[::1" = "") as Hdom by (vm_compute; reflexivity).
  split; [exact Hdom|].
  exact (empty_domain_filters_keep_all "http://[::1" ["b"; "a"; "b"] Hdom).
Defined.

Example empty_domain_filters_demo :
  extractDomain "x.com/index.html" = "" ∧
  filterLinks ["https://b.org/"; "https://a.net/"; "https://b.org/"]
              "x.com/index.html"
  = ["https://b.org/"; "https://a.net/"].
Proof. vm_compute. done. Qed.

(** C7: [removeDuplicates] is idempotent. *)
Theorem removeDuplicates_idempotent (xs : list string) :
  removeDuplicates (removeDuplicates xs) = removeDuplicates xs.
Proof.
  rewrite (removeDuplicates_firsts (removeDuplicates xs)).
  rewrite firsts_id by apply removeDuplicates_NoDup.
  apply sort_sorted_id, removeDuplicates_ascending.
Qed.

(** C8: the output of [removeDuplicates] is in ascending byte-wise
    lexicographic order and holds no string twice, and so is each of the
    four lists [processURL] reports. *)
Theorem removeDuplicates_sorted_unique :
  (∀ elements : list string,
     ascending (removeDuplicates elements) ∧ NoDup (removeDuplicates elements)) ∧
  (∀ (World : Type) (fetch : string → World → option string * World)
     (sensitiveWords : list string) (targetURL : string) (w : World),
     match fst (processURL fetch sensitiveWords targetURL w) with
     | Some rs =>
         (ascending (Links rs) ∧ NoDup (Links rs)) ∧
         (ascending (Subdomains rs) ∧ NoDup (Subdomains rs)) ∧
         (ascending (JSFiles rs) ∧ NoDup (JSFiles rs)) ∧
         (ascending (SensitiveData rs) ∧ NoDup (SensitiveData rs))
     | None => True
     end).
Proof.
  assert (∀ elements : list string,
    ascending (removeDuplicates elements) ∧ NoDup (removeDuplicates elements))
    as Hrd.
  { intros elements. split;
      [apply removeDuplicates_ascending|apply removeDuplicates_NoDup]. }
  split; [exact Hrd|].
  intros World fetch sensitiveWords targetURL w.
  destruct (processURL fetch sensitiveWords targetURL w) as [[rs|] w'] eqn:Hrun;
    [|done].
  apply processURL_Some in Hrun
    as (body & w1 & results & subdomains & sensitiveData & _ & _ & _ & ->).
  simpl. repeat split; apply Hrd.
Qed.

Example removeDuplicates_demo :
  removeDuplicates ["b.x.com"; "a.x.com"; "b.x.com"; "B.x.com"; "a.x.com"; "a"]
  = ["B.x.com"; "a"; "a.x.com"; "b.x.com"].
Proof. vm_compute. reflexivity. Qed.

(** C9: for a word of the list, [findSensitiveData] reports the finding
    that pairs the word with the script exactly when the script body
    contains the word, byte for byte, as a substring. The finding is the
    text made of a small blue diamond, a space, the word, a space, a heavy
    arrow, a space and the URL of the script; the findings of a script are
    these texts for the words its body contains, in the order of the list.
    With the list [SECRET_KEY] and a body that assigns the text
    [SECRET_KEY_1] to [k], the finding for the script is reported, and a
    word in another case is not found. *)
Theorem findSensitiveData_reports_substrings :
  (∀ (sensitiveWords : list string) (jsContent jsFile word : string),
     word ∈ sensitiveWords →
     (("🔹 " +:+ word +:+ " ➔ " +:+ jsFile)
        ∈ findSensitiveData sensitiveWords jsContent jsFile ↔
      ∃ pre post, jsContent = pre +:+ word +:+ post)) ∧
  (∀ (sensitiveWords : list string) (jsContent jsFile : string),
     findSensitiveData sensitiveWords jsContent jsFile =
     map (fun word => "🔹 " +:+ word +:+ " ➔ " +:+ jsFile)
         (List.filter (strings.Contains jsContent) sensitiveWords)) ∧
  findSensitiveData ["SECRET_KEY"]
    ("var k = " +:+ String dquote "SECRET_KEY_1" +:+ String dquote ";")
    "https://x.com/app.js"
  = ["🔹 SECRET_KEY ➔ https://x.com/app.js"] ∧
  findSensitiveData ["secret_key"]
    ("var k = " +:+ String dquote "SECRET_KEY_1" +:+ String dquote ";")
    "https://x.com/app.js"
  = [].
Proof.
  split; [|split; [apply findSensitiveData_map|by vm_compute]].
  intros sensitiveWords jsContent jsFile word Hword.
  change ("🔹 " +:+ word +:+ " ➔ " +:+ jsFile) with (finding word jsFile).
  rewrite findSensitiveData_map, list_elem_of_fmap, <- Contains_spec. split.
  - intros (word' & Heq & Hin). apply finding_inj_word in Heq as <-.
    by apply elem_of_List_filter in Hin as [_ ?].
  - intros Hc. exists word. split; [done|]. by apply elem_of_List_filter.
Qed.

Lemma findSensitiveData_reports_substrings_witness :
  "SECRET_KEY" ∈ ["API_KEY"; "SECRET_KEY"] ∧
  ("🔹 SECRET_KEY ➔ https://x.com/app.js"
     ∈ findSensitiveData ["API_KEY"; "SECRET_KEY"]
         ("var k = " +:+ String dquote "SECRET_KEY_1" +:+ String dquote ";")
         "https://x.com/app.js" ↔
   ∃ pre post,
     "var k = " +:+ String dquote "SECRET_KEY_1" +:+ String dquote ";"
     = pre +:+ "SECRET_KEY" +:+ post).
Proof.
  assert ("SECRET_KEY" ∈ ["API_KEY"; "SECRET_KEY"]) as Hin
    by (apply list_elem_of_further, list_elem_of_here).
  split; [exact Hin|].
  exact (proj1 findSensitiveData_reports_substrings
           ["API_KEY"; "SECRET_KEY"]
           ("var k = " +:+ String dquote "SECRET_KEY_1" +:+ String dquote ";")
           "https://x.com/app.js" "SECRET_KEY" Hin).
Defined.

(** The bytes of a finding: the diamond is the four bytes 240, 159, 148,
    185, the arrow the three bytes 226, 158, 148, and the URL of the script
    ends the text. *)
Example finding_bytes_demo :
  finding "K" "u"
  = String "240" (String "159" (String "148" (String "185"
      (String " " (String "K" (String " "
      (String "226" (String "158" (String "148" (String " " "u")))))))))) ∧
  ∀ word jsFile, strings.HasSuffix (finding word jsFile) jsFile = true.
Proof.
  split; [reflexivity|]. intros word jsFile. apply HasSuffix_spec.
  exists (diamond +:+ " " +:+ word +:+ " " +:+ arrow +:+ " ").
  unfold finding. by rewrite !app_assoc_s.
Qed.

(** C10, as stated, fails: the attribute [src=Q.jsQ] ends in [.js] and is
    not among the script references. *)
Lemma dot_js_attribute_counterexample :
  ¬ (∀ html baseURL v pre post : string,
       html = pre +:+ srcAttr v post →
       all_bytes not_dquote v = true →
       strings.HasSuffix v ".js" = true →
       resolveScript baseURL v ∈ removeDuplicates (extractJSFiles html baseURL)).
Proof.
  intros H.
  specialize (H ("<script " +:+ srcAttr ".js" "></script>") "https://x.com" ".js"
                "<script " "></script>" eq_refl eq_refl eq_refl).
  vm_compute in H. inversion H.
Qed.

(** C10, amended: script references are never scoped by domain.  Every
    occurrence in the page of the bytes [src=], a double quote, a value of
    one byte or more other than the double quote followed by [.js], and a
    double quote, gives a JS file that [processURL] reports: the value
    resolved against the target and passed through [cleanURL], whatever
    its host; the JS files are these and no others, without duplicates
    and sorted. The bytes are matched as they stand, wherever they occur:
    in lower case, with nothing between them. *)
Theorem script_references_not_scoped {World : Type}
    (fetch : string → World → option string * World)
    (sensitiveWords : list string) (targetURL : string) (w w1 : World)
    (body pre stem post : string) :
  fetch targetURL w = (Some body, w1) →
  body = pre +:+ srcAttr (stem +:+ ".js") post →
  stem ≠ "" →
  all_bytes not_dquote stem = true →
  ∃ rs w',
    processURL fetch sensitiveWords targetURL w = (Some rs, w') ∧
    resolveScript targetURL (stem +:+ ".js") ∈ JSFiles rs ∧
    JSFiles rs = removeDuplicates (map (resolveScript targetURL) (jsCaptures body)) ∧
    ∀ J, J ∈ JSFiles rs ↔
         ∃ pre' stem' post',
           stem' ≠ "" ∧ all_bytes not_dquote stem' = true ∧
           body = pre' +:+ srcAttr (stem' +:+ ".js") post' ∧
           J = resolveScript targetURL (stem' +:+ ".js").
Proof.
  intros Hfetch Hbody Hne Hstem.
  pose proof (jsCaptures_attr pre stem post Hne Hstem) as Hcap.
  rewrite <- Hbody in Hcap.
  assert (resolveScript targetURL (stem +:+ ".js") ∈ extractJSFiles body targetURL)
    as Hin.
  { rewrite extractJSFiles_map. apply list_elem_of_fmap. by eexists. }
  destruct (processURL_reports fetch sensitiveWords targetURL w w1 _ Hfetch)
    as (rs & w' & Hrun & Hjs).
  { intros Hnil. rewrite Hnil in Hin. by apply elem_of_nil in Hin. }
  exists rs, w'. split; [done|]. rewrite Hjs. split; [|split].
  - by apply removeDuplicates_elem_of.
  - by rewrite extractJSFiles_map.
  - intros J. rewrite removeDuplicates_elem_of, extractJSFiles_map, list_elem_of_fmap.
    split.
    + intros (v & -> & Hv).
      apply jsCaptures_sound in Hv as (stem' & pre' & post' & ? & ? & -> & ?).
      by exists pre', stem', post'.
    + intros (pre' & stem' & post' & Hne' & Hstem' & Hbody' & ->).
      exists (stem' +:+ ".js"). split; [done|]. rewrite Hbody'.
      by apply jsCaptures_attr.
Qed.

Lemma script_references_not_scoped_witness :
  cdnFetch "https://x.com" tt
    = (Some ("<script " +:+ srcAttr ("https://cdn.other.net/lib" +:+ ".js")
                                    "></script>"), tt) ∧
  "https://cdn.other.net/lib" ≠ "" ∧
  all_bytes not_dquote "https://cdn.other.net/lib" = true ∧
  extractDomain "https://cdn.other.net/lib.js" ≠ extractDomain "https://x.com" ∧
  ∃ rs w',
    processURL cdnFetch [] "https://x.com" tt = (Some rs, w') ∧
    resolveScript "https://x.com" ("https://cdn.other.net/lib" +:+ ".js")
      ∈ JSFiles rs ∧
    JSFiles rs = removeDuplicates
      (map (resolveScript "https://x.com")
           (jsCaptures ("<script " +:+ srcAttr ("https://cdn.other.net/lib" +:+ ".js")
                                               "></script>"))) ∧
    ∀ J, J ∈ JSFiles rs ↔
         ∃ pre' stem' post',
           stem' ≠ "" ∧ all_bytes not_dquote stem' = true ∧
           "<script " +:+ srcAttr ("https://cdn.other.net/lib" +:+ ".js") "></script>"
           = pre' +:+ srcAttr (stem' +:+ ".js") post' ∧
           J = resolveScript "https://x.com" (stem' +:+ ".js").
Proof.
  split; [reflexivity|]. split; [discriminate|]. split; [reflexivity|].
  split; [vm_compute; discriminate|].
  exact (script_references_not_scoped cdnFetch [] "https://x.com" tt tt
           ("<script " +:+ srcAttr ("https://cdn.other.net/lib" +:+ ".js") "></script>")
           "<script " "https://cdn.other.net/lib" "></script>"
           eq_refl eq_refl
           (fun H : "https://cdn.other.net/lib" = "" =>
              eq_ind "https://cdn.other.net/lib"
                (fun s => match s with EmptyString => False | String _ _ => True end)
                I "" H)
           eq_refl).
Defined.

(** The bytes as they stand: an attribute name in capitals or with spaces
    around the equals sign is not matched, and the tail of a longer
    attribute name is. *)
Example src_forms_demo :
  extractJSFiles ("<script SRC=" +:+ String dquote ("a.js" +:+ String dquote "></script>"))
                 "https://x.com" = [] ∧
  extractJSFiles ("<script src = " +:+ String dquote ("a.js" +:+ String dquote "></script>"))
                 "https://x.com" = [] ∧
  extractJSFiles ("<img data-src=" +:+ String dquote ("a.js" +:+ String dquote ">"))
                 "https://x.com" = ["https://x.com/a.js"].
Proof. by vm_compute. Qed.

Example cdn_demo :
  fst (processURL cdnFetch [] "https://x.com" tt)
  = Some {| Links := []; Subdomains := [];
            JSFiles := ["https://cdn.other.net/lib.js"]; SensitiveData := [] |}.
Proof. by vm_compute. Qed.

(** * Further properties of the code *)

(** ** Deduplication *)

Lemma ascending_unique (l1 l2 : list string) :
  ascending l1 → ascending l2 → l1 ≡ₚ l2 → l1 = l2.
Proof.
  intros H1 H2 Hp. apply (StronglySorted_unique String.le); [| |done].
  - apply (StronglySorted_iff lex_le); [|done]. intros x y. symmetry. apply le_lex.
  - apply (StronglySorted_iff lex_le); [|done]. intros x y. symmetry. apply le_lex.
Qed.

Lemma removeDuplicates_ext (l1 l2 : list string) :
  (∀ x, x ∈ l1 ↔ x ∈ l2) → removeDuplicates l1 = removeDuplicates l2.
Proof.
  intros Hsame. apply ascending_unique; try apply removeDuplicates_ascending.
  apply NoDup_Permutation; try apply removeDuplicates_NoDup.
  intros x. by rewrite !removeDuplicates_elem_of.
Qed.

(** X1: the output of [removeDuplicates] depends on nothing but the set of
    strings of its input: two lists give the same output exactly when they
    hold the same strings, whatever their order and repeats. *)
Theorem removeDuplicates_set (l1 l2 : list string) :
  removeDuplicates l1 = removeDuplicates l2 ↔ (∀ x, x ∈ l1 ↔ x ∈ l2).
Proof.
  split; [|apply removeDuplicates_ext].
  intros Heq x. by rewrite <- (removeDuplicates_elem_of l1), Heq, removeDuplicates_elem_of.
Qed.

Lemma length_firstsFrom (acc l : list string) :
  length (firstsFrom acc l) ≤ length l.
Proof.
  revert acc. induction l as [|x l IH]; intros acc; simpl; [done|].
  case_bool_decide; simpl; [specialize (IH acc)|specialize (IH (acc ++ [x]))]; lia.
Qed.

Lemma firstsFrom_full (acc l : list string) :
  length (firstsFrom acc l) = length l → firstsFrom acc l = l.
Proof.
  revert acc. induction l as [|x l IH]; intros acc; simpl; [done|].
  case_bool_decide; simpl.
  - pose proof (length_firstsFrom acc l). lia.
  - intros [= Hlen]. f_equal. by apply IH.
Qed.

(** X2: [removeDuplicates] holds exactly the strings of its input, is never
    longer than it, is as long exactly when the input has no repeats, and is
    empty only for an empty input. *)
Theorem removeDuplicates_keeps_distinct (elements : list string) :
  (∀ x, x ∈ removeDuplicates elements ↔ x ∈ elements) ∧
  length (removeDuplicates elements) ≤ length elements ∧
  (length (removeDuplicates elements) = length elements ↔ NoDup elements) ∧
  (removeDuplicates elements = [] ↔ elements = []).
Proof.
  assert (length (removeDuplicates elements) = length (firsts elements)) as Hlen.
  { rewrite removeDuplicates_firsts. apply Permutation_length, sort_Permutation. }
  split; [apply removeDuplicates_elem_of|]. rewrite Hlen. split; [|split].
  - apply length_firstsFrom.
  - split.
    + intros H. apply firstsFrom_full in H. fold (firsts elements) in H.
      rewrite <- H. apply NoDup_firsts.
    + intros Hnd. by rewrite firsts_id.
  - split; [|by intros ->].
    intros Hnil. destruct elements as [|x l]; [done|]. exfalso.
    assert (x ∈ removeDuplicates (x :: l)) as Hin
      by (apply removeDuplicates_elem_of, list_elem_of_here).
    rewrite Hnil in Hin. by apply elem_of_nil in Hin.
Qed.

(** X3: the aggregation of two batches does not depend on their order, nor
    on whether each batch was deduplicated first. *)
Theorem removeDuplicates_app (a b : list string) :
  removeDuplicates (a ++ b) = removeDuplicates (b ++ a) ∧
  removeDuplicates (a ++ b)
  = removeDuplicates (removeDuplicates a ++ removeDuplicates b).
Proof.
  split; apply removeDuplicates_ext; intros x;
    rewrite !elem_of_app, ?removeDuplicates_elem_of; tauto.
Qed.

(** ** The scope filters, further *)

Lemma sublist_firstsFrom (acc l : list string) : sublist (firstsFrom acc l) l.
Proof.
  revert acc. induction l as [|x l IH]; intros acc; simpl; [constructor|].
  case_bool_decide; [apply sublist_cons|apply sublist_skip]; apply IH.
Qed.

Lemma sublist_List_filter (p : string → bool) (l : list string) :
  sublist (List.filter p l) l.
Proof.
  induction l as [|x l IH]; simpl; [constructor|].
  destruct (p x); [by apply sublist_skip|by apply sublist_cons].
Qed.

Lemma List_filter_all (p : string → bool) (l : list string) :
  (∀ x, x ∈ l → p x = true) → List.filter p l = l.
Proof.
  induction l as [|x l IH]; intros Hall; simpl; [done|].
  rewrite (Hall x) by apply list_elem_of_here. f_equal. apply IH.
  intros y Hy. apply Hall. by apply list_elem_of_further.
Qed.

(** A loop that keeps first occurrences changes nothing in a list without
    repeats whose strings all pass the test. *)
Lemma firsts_filter_id (p : string → bool) (l : list string) :
  NoDup l → (∀ x, x ∈ l → p x = true) → firsts (List.filter p l) = l.
Proof. intros Hnd Hall. rewrite List_filter_all by done. by apply firsts_id. Qed.

(** X4: [filterLinks] returns its input with the strings that lack the
    domain and the repeats of earlier strings taken out: the output has no
    repeats, keeps the order of the input, and holds a string exactly when
    the input holds it and it contains the domain. *)
Theorem filterLinks_first_occurrences (links : list string) (baseURL : string) :
  NoDup (filterLinks links baseURL) ∧
  sublist (filterLinks links baseURL) links ∧
  (∀ L, L ∈ filterLinks links baseURL ↔
        L ∈ links ∧ ∃ pre post, L = pre +:+ extractDomain baseURL +:+ post).
Proof.
  rewrite filterLinks_firsts. split; [apply NoDup_firsts|]. split.
  - etrans; [apply sublist_firstsFrom|apply sublist_List_filter].
  - intros L. by rewrite elem_of_firsts, elem_of_List_filter, Contains_spec.
Qed.

(** X5: [filterSubdomains] returns its input with the strings that do not
    end with the domain and the repeats of earlier strings taken out, in
    the order of the input. *)
Theorem filterSubdomains_first_occurrences (subdomains : list string)
    (baseURL : string) :
  NoDup (filterSubdomains subdomains baseURL) ∧
  sublist (filterSubdomains subdomains baseURL) subdomains ∧
  (∀ S, S ∈ filterSubdomains subdomains baseURL ↔
        S ∈ subdomains ∧ ∃ pre, S = pre +:+ extractDomain baseURL).
Proof.
  rewrite filterSubdomains_firsts. split; [apply NoDup_firsts|]. split.
  - etrans; [apply sublist_firstsFrom|apply sublist_List_filter].
  - intros S. by rewrite elem_of_firsts, elem_of_List_filter, HasSuffix_spec.
Qed.

(** X6: filtering a second time changes nothing, and a scope filter
    applied to an output of [removeDuplicates], which has no repeats, only
    drops entries: it is the plain filter of that sorted list; so it
    returns its own output, sorted by [removeDuplicates], as it is. *)
Theorem filters_idempotent (l : list string) (baseURL : string) :
  filterLinks (filterLinks l baseURL) baseURL = filterLinks l baseURL ∧
  filterSubdomains (filterSubdomains l baseURL) baseURL
  = filterSubdomains l baseURL ∧
  filterLinks (removeDuplicates (filterLinks l baseURL)) baseURL
  = removeDuplicates (filterLinks l baseURL) ∧
  filterSubdomains (removeDuplicates (filterSubdomains l baseURL)) baseURL
  = removeDuplicates (filterSubdomains l baseURL) ∧
  filterLinks (removeDuplicates l) baseURL
  = List.filter (fun link => strings.Contains link (extractDomain baseURL))
                (removeDuplicates l) ∧
  filterSubdomains (removeDuplicates l) baseURL
  = List.filter (fun subdomain => strings.HasSuffix subdomain (extractDomain baseURL))
                (removeDuplicates l).
Proof.
  repeat split.
  - rewrite (filterLinks_firsts (filterLinks l baseURL)).
    apply firsts_filter_id; [rewrite filterLinks_firsts; apply NoDup_firsts|].
    intros x Hx. by apply filterLinks_elem_of in Hx as [_ ?].
  - rewrite (filterSubdomains_firsts (filterSubdomains l baseURL)).
    apply firsts_filter_id; [rewrite filterSubdomains_firsts; apply NoDup_firsts|].
    intros x Hx. by apply filterSubdomains_elem_of in Hx as [_ ?].
  - rewrite (filterLinks_firsts (removeDuplicates _)).
    apply firsts_filter_id; [apply removeDuplicates_NoDup|].
    intros x Hx. rewrite removeDuplicates_elem_of in Hx.
    by apply filterLinks_elem_of in Hx as [_ ?].
  - rewrite (filterSubdomains_firsts (removeDuplicates _)).
    apply firsts_filter_id; [apply removeDuplicates_NoDup|].
    intros x Hx. rewrite removeDuplicates_elem_of in Hx.
    by apply filterSubdomains_elem_of in Hx as [_ ?].
  - rewrite filterLinks_firsts. apply firsts_id.
    eapply sublist_NoDup; [apply removeDuplicates_NoDup|apply sublist_List_filter].
  - rewrite filterSubdomains_firsts. apply firsts_id.
    eapply sublist_NoDup; [apply removeDuplicates_NoDup|apply sublist_List_filter].
Qed.

Example filters_on_sorted_demo :
  filterLinks (removeDuplicates ["https://x.com/b"; "https://y.net"; "https://x.com/a";
                                 "https://x.com/b"]) "https://x.com"
  = ["https://x.com/a"; "https://x.com/b"].
Proof. by vm_compute. Qed.

Lemma HasSuffix_Contains (s t : string) :
  strings.HasSuffix s t = true → strings.Contains s t = true.
Proof.
  rewrite HasSuffix_spec, Contains_spec. intros [pre ->].
  exists pre, "". by rewrite app_empty_r.
Qed.

Lemma firstsFrom_acc_ext (acc1 acc2 l : list string) :
  (∀ y, y ∈ l → (y ∈ acc1 ↔ y ∈ acc2)) → firstsFrom acc1 l = firstsFrom acc2 l.
Proof.
  revert acc1 acc2. induction l as [|x l IH]; intros acc1 acc2 Hacc; simpl; [done|].
  pose proof (Hacc x (list_elem_of_here x l)) as Hx.
  assert (∀ y, y ∈ l → y ∈ acc1 ↔ y ∈ acc2) as Hl
    by (intros y Hy; apply Hacc; by apply list_elem_of_further).
  destruct (decide (x ∈ acc1)) as [H1|H1].
  - rewrite !bool_decide_eq_true_2 by tauto. by apply IH.
  - rewrite !bool_decide_eq_false_2 by tauto. f_equal. apply IH.
    intros y Hy. rewrite !elem_of_app. specialize (Hl y Hy). tauto.
Qed.

(** Taking first occurrences and filtering commute. *)
Lemma filter_firstsFrom (p : string → bool) (acc l : list string) :
  List.filter p (firstsFrom acc l) = firstsFrom acc (List.filter p l).
Proof.
  revert acc. induction l as [|x l IH]; intros acc; simpl; [done|].
  case_bool_decide as Hx.
  - rewrite IH. destruct (p x); [|done]. simpl. by rewrite bool_decide_eq_true_2.
  - simpl. destruct (p x) eqn:Hp; simpl.
    + rewrite bool_decide_eq_false_2 by done. by rewrite IH.
    + rewrite IH. apply firstsFrom_acc_ext. intros y Hy.
      apply elem_of_List_filter in Hy as [_ Hpy].
      rewrite elem_of_app, list_elem_of_singleton. split; [|tauto].
      intros [?| ->]; [done|congruence].
Qed.

Lemma List_filter_filter (p q : string → bool) (l : list string) :
  (∀ x, q x = true → p x = true) →
  List.filter q (List.filter p l) = List.filter q l.
Proof.
  intros Hqp. induction l as [|x l IH]; simpl; [done|].
  destruct (p x) eqn:Hp; simpl; rewrite IH; [done|].
  destruct (q x) eqn:Hq; [|done]. apply Hqp in Hq. congruence.
Qed.

(** X7: a string that ends with the domain contains it, so the subdomain
    filter keeps nothing the link filter would drop: applying
    [filterSubdomains] after [filterLinks] gives what [filterSubdomains]
    gives alone. *)
Theorem filterSubdomains_after_filterLinks (l : list string) (baseURL : string) :
  filterSubdomains (filterLinks l baseURL) baseURL = filterSubdomains l baseURL ∧
  (∀ x, x ∈ filterSubdomains l baseURL → x ∈ filterLinks l baseURL).
Proof.
  split.
  - rewrite !filterSubdomains_firsts, filterLinks_firsts. unfold firsts at 2.
    rewrite filter_firstsFrom. fold (firsts (List.filter
      (fun s => strings.HasSuffix s (extractDomain baseURL))
      (List.filter (fun link => strings.Contains link (extractDomain baseURL)) l))).
    rewrite firsts_id by apply NoDup_firsts.
    f_equal. apply List_filter_filter. intros x. apply HasSuffix_Contains.
  - intros x. rewrite filterSubdomains_elem_of, filterLinks_elem_of.
    intros [Hx Hs]. split; [done|]. by apply HasSuffix_Contains.
Qed.

(** ** The domain of a URL *)

Lemma Count_app (s t : string) (sep : ascii) :
  strings.Count (s +:+ t) sep = strings.Count s sep + strings.Count t sep.
Proof.
  induction s as [|c s IH]; [done|]. rewrite app_cons. simpl. rewrite IH. lia.
Qed.

Lemma concat_last_two (sep : string) (front : list string) (a b : string) :
  ∃ pre, String.concat sep (front ++ [a; b]) = pre +:+ a +:+ sep +:+ b.
Proof.
  induction front as [|x front [pre IH]].
  - by exists "".
  - exists (x +:+ sep +:+ pre). simpl.
    destruct (front ++ [a; b]) eqn:Hf; [by destruct front|].
    by rewrite IH, !app_assoc_s.
Qed.

Lemma extractDomain_cases (rawURL : string) (u : url.URL) :
  url.Parse rawURL = Some u →
  (2 ≤ length (strings.Split (url.Hostname u) ".") →
   ∃ front a b, strings.Split (url.Hostname u) "." = front ++ [a; b] ∧
                extractDomain rawURL = a +:+ "." +:+ b) ∧
  (length (strings.Split (url.Hostname u) ".") < 2 →
   extractDomain rawURL = url.Hostname u).
Proof.
  intros HP. unfold extractDomain. rewrite HP. cbv zeta.
  destruct (Nat.leb_spec 2 (length (strings.Split (url.Hostname u) "."))) as [Hge|Hlt].
  - split; [|lia]. intros _.
    destruct (last_two "" _ Hge) as (front & a & b & Heq & Ha & Hb).
    exists front, a, b. split; [exact Heq|]. by rewrite Ha, Hb.
  - split; [lia|done].
Qed.

(** X8: for a URL that parses, the domain [extractDomain] returns is a
    suffix of the host name, holds at most one dot, and is empty exactly
    when the host name is; so the host name of the target passes
    [filterSubdomains]. *)
Theorem extractDomain_suffix_of_host (rawURL : string) :
  match url.Parse rawURL with
  | None => extractDomain rawURL = ""
  | Some u =>
      (∃ pre, url.Hostname u = pre +:+ extractDomain rawURL) ∧
      strings.Count (extractDomain rawURL) "." ≤ 1 ∧
      (extractDomain rawURL = "" ↔ url.Hostname u = "") ∧
      filterSubdomains [url.Hostname u] rawURL = [url.Hostname u]
  end.
Proof.
  destruct (url.Parse rawURL) as [u|] eqn:HP;
    [|unfold extractDomain; by rewrite HP].
  destruct (extractDomain_cases rawURL u HP) as [Hmany Hfew].
  pose proof (Split_concat (url.Hostname u) ".") as Hconcat.
  pose proof (Split_no_sep (url.Hostname u) ".") as Hlabels.
  assert (∃ pre, url.Hostname u = pre +:+ extractDomain rawURL) as Hsuffix.
  { destruct (Nat.le_gt_cases 2 (length (strings.Split (url.Hostname u) ".")))
      as [Hge|Hlt].
    - destruct (Hmany Hge) as (front & a & b & Heq & ->).
      rewrite <- Hconcat, Heq. apply concat_last_two.
    - rewrite (Hfew Hlt). by exists "". }
  split; [done|]. split; [|split].
  - destruct (Nat.le_gt_cases 2 (length (strings.Split (url.Hostname u) ".")))
      as [Hge|Hlt].
    + destruct (Hmany Hge) as (front & a & b & Heq & ->).
      rewrite Heq in Hlabels. apply Forall_app in Hlabels as [_ Hab].
      inversion Hab as [|? ? Ha Hb']; subst. inversion Hb' as [|? ? Hb _]; subst.
      rewrite !Count_app, Ha, Hb. simpl. lia.
    + rewrite (Hfew Hlt).
      destruct (strings.Split (url.Hostname u) ".") as [|p [|q ps]] eqn:Hs;
        simpl in Hlt; try lia.
      * by apply Split_nonempty in Hs.
      * simpl in Hconcat. subst p. inversion Hlabels; subst. lia.
  - destruct (Nat.le_gt_cases 2 (length (strings.Split (url.Hostname u) ".")))
      as [Hge|Hlt].
    + destruct (Hmany Hge) as (front & a & b & Heq & Hd).
      destruct Hsuffix as [pre Hpre]. rewrite Hd in *. split.
      * intros Hempty. apply (f_equal String.length) in Hempty.
        rewrite !length_app_s in Hempty. simpl in Hempty. lia.
      * intros Hhost. rewrite Hhost in Hpre.
        apply (f_equal String.length) in Hpre.
        rewrite !length_app_s in Hpre. simpl in Hpre. lia.
    + by rewrite (Hfew Hlt).
  - rewrite filterSubdomains_firsts. simpl.
    assert (strings.HasSuffix (url.Hostname u) (extractDomain rawURL) = true) as ->
      by by apply HasSuffix_spec.
    done.
Qed.

(** ** The extractors, line by line *)

Lemma fold_left_flat_map {A B : Type} (g : A → list B) (l : list A) (acc : list B) :
  fold_left (fun acc x => acc ++ g x) l acc = acc ++ flat_map g l.
Proof.
  revert acc. induction l as [|x l IH]; intros acc; simpl.
  - by rewrite app_nil_r.
  - by rewrite IH, <- app_assoc.
Qed.

Lemma extractLinks_lines (jsContent baseURL : string) :
  extractLinks jsContent baseURL =
  flat_map (lineLinks (extractDomain baseURL)) (strings.Split jsContent newline).
Proof.
  unfold extractLinks. cbv zeta.
  rewrite (fold_left_ext _ (fun acc line => acc ++ lineLinks (extractDomain baseURL) line)).
  - apply (fold_left_flat_map _ _ []).
  - intros acc line. apply fold_left_append_map.
Qed.

Lemma extractSubdomains_lines (jsContent baseURL : string) :
  extractSubdomains jsContent baseURL =
  flat_map (lineSubdomains (extractDomain baseURL)) (strings.Split jsContent newline).
Proof.
  unfold extractSubdomains. cbv zeta.
  rewrite (fold_left_ext _
             (fun acc line => acc ++ lineSubdomains (extractDomain baseURL) line)).
  - apply (fold_left_flat_map _ _ []).
  - intros acc line. unfold lineSubdomains.
    rewrite <- (map_id (List.filter _ _)). apply (fold_left_append_map (fun x => x)).
Qed.

Lemma Split_app (a b : string) (sep : ascii) :
  strings.Split (a +:+ String sep b) sep = strings.Split a sep ++ strings.Split b sep.
Proof.
  induction a as [|c a IH].
  - rewrite app_empty_l. simpl. by rewrite Ascii.eqb_refl.
  - rewrite app_cons. simpl. rewrite IH.
    destruct (Ascii.eqb c sep); [done|].
    pose proof (Split_nonempty a sep). by destruct (strings.Split a sep).
Qed.

(** X9: the extractors work line by line: what [extractLinks] and
    [extractSubdomains] find in two texts joined by a newline is what they
    find in the first followed by what they find in the second, so no match
    runs across a newline. *)
Theorem extractors_line_by_line (a b baseURL : string) :
  extractLinks (a +:+ String newline b) baseURL
  = extractLinks a baseURL ++ extractLinks b baseURL ∧
  extractSubdomains (a +:+ String newline b) baseURL
  = extractSubdomains a baseURL ++ extractSubdomains b baseURL.
Proof.
  rewrite !extractLinks_lines, !extractSubdomains_lines, !Split_app.
  by rewrite !flat_map_app.
Qed.

Example extractors_line_by_line_demo :
  extractLinks ("x = 'https://a.x" +:+ String newline ".com/'") "https://x.com" = [].
Proof. by vm_compute. Qed.

(** ** What a match consumes *)

Lemma all_bytes_impl (p q : ascii → bool) (s : string) :
  (∀ c, p c = true → q c = true) → all_bytes p s = true → all_bytes q s = true.
Proof.
  intros Hpq. induction s as [|c s IH]; [done|]. simpl.
  intros [Hc Hs]%andb_true_iff. by rewrite (Hpq c Hc), IH.
Qed.

Lemma run_Alt r1 r2 st k :
  regexp.run (regexp.Alt r1 r2) st k =
  match regexp.run r1 st k with
  | Some st' => Some st'
  | None => regexp.run r2 st k
  end.
Proof. reflexivity. Qed.

Lemma run_Star r st k :
  regexp.run (regexp.Star r) st k
  = regexp.star (regexp.run r) k (String.length (regexp.rest st)) st.
Proof. reflexivity. Qed.

(** Whatever way a pattern matches, it consumes a prefix of the text made
    of bytes of its classes, and the continuation accepts what follows. *)
Lemma run_consumes (r : regexp.Regexp) st k st' :
  regexp.run r st k = Some st' →
  ∃ w st1, regexp.rest st = w +:+ regexp.rest st1 ∧
           all_bytes (alphabet r) w = true ∧ k st1 = Some st'.
Proof.
  revert st k st'. induction r as [|p|r1 IH1 r2 IH2|r1 IH1 r2 IH2|r IH|r IH|];
    intros st k st'.
  - intros Hk. by exists "", st.
  - destruct st as [b s g]. intros (c & t & -> & Hc & Hk)%run_Class_Some.
    exists (String c ""), {| regexp.prev := Some c; regexp.rest := t;
                             regexp.group := g |}.
    simpl. by rewrite Hc.
  - rewrite run_Cat. intros (w1 & st1 & Hw1 & Ha1 & Hrun)%IH1.
    apply IH2 in Hrun as (w2 & st2 & Hw2 & Ha2 & Hk).
    exists (w1 +:+ w2), st2. rewrite Hw1, Hw2, app_assoc_s, all_bytes_app.
    split; [done|]. split; [|done]. apply andb_true_iff. split.
    + eapply all_bytes_impl; [|exact Ha1]. intros c Hc. simpl. by rewrite Hc.
    + eapply all_bytes_impl; [|exact Ha2]. intros c Hc. simpl. rewrite Hc.
      apply orb_true_r.
  - rewrite run_Alt. destruct (regexp.run r1 st k) as [st1'|] eqn:H1.
    + intros [= <-]. apply IH1 in H1 as (w & st1 & Hw & Ha & Hk).
      exists w, st1. split; [done|]. split; [|done].
      eapply all_bytes_impl; [|exact Ha]. intros c Hc. simpl. by rewrite Hc.
    + intros (w & st1 & Hw & Ha & Hk)%IH2.
      exists w, st1. split; [done|]. split; [|done].
      eapply all_bytes_impl; [|exact Ha]. intros c Hc. simpl. rewrite Hc.
      apply orb_true_r.
  - rewrite run_Star. generalize (String.length (regexp.rest st)) as fuel.
    intros fuel. revert st. induction fuel as [|fuel IHf]; intros st.
    + intros Hk. by exists "", st.
    + rewrite star_S.
      destruct (regexp.run r st _) as [st1'|] eqn:Hbody.
      * intros [= <-]. apply IH in Hbody as (w1 & st1 & Hw1 & Ha1 & Hnext).
        destruct (_ <? _); [|done].
        apply IHf in Hnext as (w2 & st2 & Hw2 & Ha2 & Hk).
        exists (w1 +:+ w2), st2. rewrite Hw1, Hw2, app_assoc_s, all_bytes_app.
        split; [done|]. split; [|done]. apply andb_true_iff. split; [|done].
        eapply all_bytes_impl; [|exact Ha1]. by intros c Hc.
      * intros Hk. by exists "", st.
  - rewrite run_Capture. intros (w & st1 & Hw & Ha & Hk)%IH.
    exists w, {| regexp.prev := regexp.prev st1; regexp.rest := regexp.rest st1;
                 regexp.group := Some (regexp.consumed st st1) |}.
    split; [exact Hw|]. split; [|exact Hk].
    eapply all_bytes_impl; [|exact Ha]. by intros c Hc.
  - simpl. destruct (xorb _ _); [|done]. intros Hk. by exists "", st.
Qed.

Lemma app_length_inv (w s t : string) :
  s = w +:+ t → strings.upto (String.length s - String.length t) s = w.
Proof.
  intros ->. unfold strings.upto. rewrite length_app_s.
  replace (String.length w + String.length t - String.length t)
    with (String.length w) by lia.
  apply substring_app_l.
Qed.

(** Every match a scan reports is a piece of the text, not empty, made of
    bytes of the pattern's classes, at a place where the pattern matches. *)
Lemma scan_elem re before s skip m :
  m ∈ regexp.scan re before s skip →
  ∃ pre post b st,
    s = pre +:+ fst m +:+ post ∧ fst m ≠ "" ∧
    all_bytes (alphabet re) (fst m) = true ∧
    regexp.matchAt re b (fst m +:+ post) = Some st ∧
    regexp.rest st = post ∧ snd m = regexp.group st.
Proof.
  revert before skip. induction s as [|c s IH]; intros before skip.
  - rewrite scan_nil. by intros ?%elem_of_nil.
  - assert (∀ before skip, m ∈ regexp.scan re before s skip →
      ∃ pre post b st,
        String c s = pre +:+ fst m +:+ post ∧ fst m ≠ "" ∧
        all_bytes (alphabet re) (fst m) = true ∧
        regexp.matchAt re b (fst m +:+ post) = Some st ∧
        regexp.rest st = post ∧ snd m = regexp.group st) as Hlater.
    { intros b k Hin.
      destruct (IH b k Hin) as (pre & post & b' & st & -> & ? & ? & ? & ? & ?).
      by exists (String c pre), post, b', st. }
    destruct skip as [|n]; [|rewrite scan_skip; apply Hlater].
    rewrite scan_here.
    destruct (regexp.matchAt re before (String c s)) as [st|] eqn:Hm;
      [|apply Hlater].
    destruct (_ - _) as [|n] eqn:Hlen; [apply Hlater|].
    intros [->|Hin]%elem_of_cons; [|by eapply Hlater].
    pose proof Hm as Hrun. unfold regexp.matchAt in Hrun.
    apply run_consumes in Hrun as (w & st1 & Hw & Ha & [= ->]).
    cbn [regexp.rest] in Hw. cbn [fst snd].
    assert (strings.upto (S n) (String c s) = w) as Hup
      by (rewrite <- Hlen; by apply app_length_inv).
    exists "", (regexp.rest st), before, st. rewrite Hup, app_empty_l, <- Hw.
    repeat split; try done.
    intros ->. rewrite app_empty_l in Hw. rewrite Hw in Hlen. lia.
Qed.

(** ** What the extractors return *)

Lemma starClass_always p before s g : starClass p Some before s g ≠ None.
Proof.
  revert before. induction s as [|c s IH]; intros before; cbn [starClass]; [done|].
  destruct (p c); [|done]. specialize (IH (Some c)).
  by destruct (starClass p Some (Some c) s g).
Qed.

(** With nothing to satisfy after it, a greedy star over a class takes
    every byte of the class there is. *)
Lemma starClass_greedy p before s g st :
  starClass p Some before s g = Some st →
  ∃ w, s = w +:+ regexp.rest st ∧ all_bytes p w = true ∧
       starts_with p (regexp.rest st) = false.
Proof.
  revert before. induction s as [|c s IH]; intros before; cbn [starClass].
  - intros [= <-]. by exists "".
  - destruct (p c) eqn:Hc.
    + destruct (starClass p Some (Some c) s g) as [st1|] eqn:Hstar.
      * intros [= <-]. destruct (IH _ Hstar) as (w & -> & Hw & Hstop).
        exists (String c w). rewrite app_cons. simpl. by rewrite Hc, Hw.
      * by apply starClass_always in Hstar.
    + intros [= <-]. exists "". simpl. by rewrite Hc.
Qed.

(** A match of the link pattern is [http://] or [https://] followed by one
    byte or more that can stand inside a link, up to the first byte that
    cannot. *)
Lemma linkRe_matchAt_Some before s st :
  regexp.matchAt linkRe before s = Some st →
  ∃ scheme body,
    (scheme = "http://" ∨ scheme = "https://") ∧ body ≠ "" ∧
    all_bytes link_byte body = true ∧
    s = scheme +:+ body +:+ regexp.rest st ∧
    starts_with link_byte (regexp.rest st) = false.
Proof.
  unfold regexp.matchAt, linkRe. rewrite run_Cat. intros Hrun.
  apply run_Str_Some in Hrun as (s1 & -> & Hrun).
  rewrite run_Cat in Hrun. unfold regexp.Quest in Hrun. rewrite run_Alt in Hrun.
  assert (∀ b t, regexp.run
            (regexp.Cat (regexp.Str "://")
               (regexp.Plus (regexp.Class (fun c => negb (link_stop c)))))
            {| regexp.prev := b; regexp.rest := t; regexp.group := None |} Some
            = Some st →
          ∃ body, body ≠ "" ∧ all_bytes link_byte body = true ∧
                  t = "://" +:+ body +:+ regexp.rest st ∧
                  starts_with link_byte (regexp.rest st) = false) as Htail.
  { intros b t Ht. rewrite run_Cat in Ht.
    apply run_Str_Some in Ht as (t1 & -> & Ht). unfold regexp.Plus in Ht.
    rewrite run_Cat in Ht.
    apply run_Class_Some in Ht as (c & t2 & -> & Hc & Ht).
    rewrite run_Star_Class in Ht. cbn [regexp.prev regexp.rest regexp.group] in Ht.
    apply starClass_greedy in Ht as (w & -> & Hw & Hstop).
    change (link_byte c = true) in Hc.
    change (all_bytes link_byte w = true) in Hw.
    change (starts_with link_byte (regexp.rest st) = false) in Hstop.
    exists (String c w). split; [done|]. split; [simpl; by rewrite Hc, Hw|].
    by rewrite !app_cons. }
  destruct (regexp.run (regexp.Lit "s") _ _) as [st'|] eqn:Hs.
  - injection Hrun as ->. unfold regexp.Lit in Hs.
    apply run_Class_Some in Hs as (c & t & -> & Hc & Hs).
    apply Ascii.eqb_eq in Hc as <-.
    apply Htail in Hs as (body & Hne & Hbody & -> & Hstop).
    exists "https://", body. refine (conj (or_intror eq_refl) _).
    by rewrite !app_cons.
  - cbn [regexp.run] in Hrun.
    apply Htail in Hrun as (body & Hne & Hbody & -> & Hstop).
    exists "http://", body. refine (conj (or_introl eq_refl) _).
    by rewrite !app_cons.
Qed.

Lemma Split_head (s : string) (sep : ascii) (p : string) (ps : list string) :
  strings.Split s sep = p :: ps →
  ∃ post, s = p +:+ post ∧ (post = "" ∨ ∃ post', post = String sep post').
Proof.
  revert p ps. induction s as [|c s IH]; intros p ps; simpl.
  - intros [= <- <-]. exists "". split; [done|by left].
  - destruct (Ascii.eqb_spec c sep) as [->|Hc].
    + intros [= <- <-]. exists (String sep s). split; [done|]. right. by exists s.
    + destruct (strings.Split s sep) as [|p' ps'] eqn:Hs.
      * by apply Split_nonempty in Hs.
      * intros [= <- <-]. destruct (IH p' ps' eq_refl) as (post & -> & Hpost).
        by exists post.
Qed.

(** A line of a text is a piece of it that ends at a newline or at the end
    of the text. *)
Lemma Split_elem (s : string) (sep : ascii) (line : string) :
  line ∈ strings.Split s sep →
  ∃ pre post, s = pre +:+ line +:+ post ∧
              (post = "" ∨ ∃ post', post = String sep post').
Proof.
  revert line. induction s as [|c s IH]; intros line; simpl.
  - intros ->%list_elem_of_singleton. exists "", "". split; [done|by left].
  - destruct (Ascii.eqb_spec c sep) as [->|Hc].
    + intros [->|Hin]%elem_of_cons.
      * exists "", (String sep s). split; [done|]. right. by exists s.
      * destruct (IH _ Hin) as (pre & post & -> & Hpost).
        by exists (String sep pre), post.
    + destruct (strings.Split s sep) as [|p ps] eqn:Hs.
      * by apply Split_nonempty in Hs.
      * intros [->|Hin]%elem_of_cons.
        -- destruct (Split_head s sep p ps Hs) as (post & -> & Hpost).
           by exists "", post.
        -- destruct (IH line) as (pre & post & -> & Hpost);
             [by apply list_elem_of_further|].
           by exists (String c pre), post.
Qed.

Lemma starts_with_app (p : ascii → bool) (s t : string) :
  starts_with p s = false →
  (t = "" ∨ ∃ c t', t = String c t' ∧ p c = false) →
  starts_with p (s +:+ t) = false.
Proof.
  destruct s as [|c s]; [|by rewrite app_cons].
  rewrite app_empty_l. by intros _ [->|(c & t' & -> & Hc)].
Qed.

Lemma elem_of_FindAllString re s m :
  m ∈ regexp.FindAllString re s →
  ∃ pre post b st,
    s = pre +:+ m +:+ post ∧ m ≠ "" ∧ all_bytes (alphabet re) m = true ∧
    regexp.matchAt re b (m +:+ post) = Some st ∧ regexp.rest st = post.
Proof.
  unfold regexp.FindAllString. intros ([text g] & -> & Hin)%list_elem_of_fmap.
  apply scan_elem in Hin as (pre & post & b & st & ? & ? & ? & ? & ? & _).
  by exists pre, post, b, st.
Qed.

(** X10: every string [extractLinks] returns is [cleanURL] of a token of
    the script that starts with [http://] or [https://], goes on with one
    byte or more up to the next white space, quote, angle bracket or
    parenthesis (or the end of the text), contains the domain of the target
    and does not end in [.js]. *)
Theorem extractLinks_returns_link_tokens (jsContent baseURL L : string) :
  L ∈ extractLinks jsContent baseURL →
  ∃ scheme body pre post,
    (scheme = "http://" ∨ scheme = "https://") ∧
    body ≠ "" ∧ all_bytes link_byte body = true ∧
    jsContent = pre +:+ (scheme +:+ body) +:+ post ∧
    starts_with link_byte post = false ∧
    (∃ p q, scheme +:+ body = p +:+ extractDomain baseURL +:+ q) ∧
    strings.HasSuffix (scheme +:+ body) ".js" = false ∧
    L = cleanURL (scheme +:+ body).
Proof.
  rewrite extractLinks_lines, list_elem_of_In, in_flat_map.
  intros (line & Hline%list_elem_of_In & HL%list_elem_of_In).
  unfold lineLinks in HL. apply list_elem_of_fmap in HL as (m & -> & Hm).
  apply elem_of_List_filter in Hm as [Hm [Hdom Hjs]%andb_true_iff].
  apply elem_of_FindAllString in Hm as (pre & post & b & st & -> & _ & _ & Hat & Hrest).
  apply linkRe_matchAt_Some in Hat
    as (scheme & body & Hscheme & Hne & Hbody & Heq & Hstop).
  rewrite Hrest in Heq, Hstop. rewrite <- app_assoc_s in Heq.
  apply app_inv_tail_s in Heq as ->.
  apply Split_elem in Hline as (p1 & p2 & -> & Hp2).
  exists scheme, body, (p1 +:+ pre), (post +:+ p2).
  split; [done|]. split; [done|]. split; [done|]. split; [by rewrite !app_assoc_s|].
  split.
  { apply starts_with_app; [done|]. destruct Hp2 as [->|[p2' ->]]; [by left|].
    right. by exists newline, p2'. }
  split; [by apply Contains_spec|]. split; [|done].
  by apply negb_true_iff.
Qed.

Lemma extractLinks_returns_link_tokens_witness :
  "https://api.x.com/v1" ∈ extractLinks demoScript "https://x.com" ∧
  ∃ scheme body pre post,
    (scheme = "http://" ∨ scheme = "https://") ∧
    body ≠ "" ∧ all_bytes link_byte body = true ∧
    demoScript = pre +:+ (scheme +:+ body) +:+ post ∧
    starts_with link_byte post = false ∧
    (∃ p q, scheme +:+ body = p +:+ extractDomain "https://x.com" +:+ q) ∧
    strings.HasSuffix (scheme +:+ body) ".js" = false ∧
    "https://api.x.com/v1" = cleanURL (scheme +:+ body).
Proof.
  assert ("https://api.x.com/v1" ∈ extractLinks demoScript "https://x.com") as Hin
    by (vm_compute; apply list_elem_of_here).
  split; [exact Hin|].
  exact (extractLinks_returns_link_tokens demoScript "https://x.com"
           "https://api.x.com/v1" Hin).
Defined.

Lemma subdomainRe_alphabet (c : ascii) :
  alphabet subdomainRe c = true → host_byte c = true.
Proof. destruct c as [[] [] [] [] [] [] [] []]; by vm_compute. Qed.

(** X11: every string [extractSubdomains] returns is a piece of the script,
    not empty, made of lowercase letters, digits, hyphens and dots only,
    that contains the domain of the target. *)
Theorem extractSubdomains_returns_host_tokens (jsContent baseURL S : string) :
  S ∈ extractSubdomains jsContent baseURL →
  S ≠ "" ∧ all_bytes host_byte S = true ∧
  (∃ pre post, jsContent = pre +:+ S +:+ post) ∧
  (∃ p q, S = p +:+ extractDomain baseURL +:+ q).
Proof.
  rewrite extractSubdomains_lines, list_elem_of_In, in_flat_map.
  intros (line & Hline%list_elem_of_In & HS%list_elem_of_In).
  unfold lineSubdomains in HS. apply elem_of_List_filter in HS as [HS Hdom].
  apply elem_of_FindAllString in HS as (pre & post & b & st & -> & Hne & Ha & _).
  apply Split_elem in Hline as (p1 & p2 & -> & _).
  split; [done|]. split; [|split].
  - eapply all_bytes_impl; [apply subdomainRe_alphabet|done].
  - exists (p1 +:+ pre), (post +:+ p2). by rewrite !app_assoc_s.
  - by apply Contains_spec.
Qed.

Lemma extractSubdomains_returns_host_tokens_witness :
  "api.x.com" ∈ extractSubdomains demoScript "https://x.com" ∧
  "api.x.com" ≠ "" ∧ all_bytes host_byte "api.x.com" = true ∧
  (∃ pre post, demoScript = pre +:+ "api.x.com" +:+ post) ∧
  (∃ p q, "api.x.com" = p +:+ extractDomain "https://x.com" +:+ q).
Proof.
  assert ("api.x.com" ∈ extractSubdomains demoScript "https://x.com") as Hin
    by (vm_compute; apply list_elem_of_here).
  split; [exact Hin|].
  exact (extractSubdomains_returns_host_tokens demoScript "https://x.com"
           "api.x.com" Hin).
Defined.

Lemma all_bytes_mid (p : ascii → bool) (a : string) (c : ascii) (b : string) :
  all_bytes p (a +:+ String c b) = true → p c = true.
Proof.
  rewrite all_bytes_app. simpl. rewrite !andb_true_iff. tauto.
Qed.

(** X12: every script reference [extractJSFiles] returns comes from an
    occurrence in the page of the bytes [src=], a double quote, a value of
    one byte or more, free of double quotes, followed by [.js], and a
    double quote, and is that value resolved against the base URL; the
    occurrence need not be a [src] attribute, the tail of another
    attribute name will do. So a page without a double quote, such as one
    whose attributes are single-quoted, has no script reference. *)
Theorem extractJSFiles_returns_src_values (html baseURL : string) :
  (∀ x, x ∈ extractJSFiles html baseURL →
     ∃ stem pre post,
       stem ≠ "" ∧ all_bytes not_dquote stem = true ∧
       html = pre +:+ srcAttr (stem +:+ ".js") post ∧
       x = resolveScript baseURL (stem +:+ ".js")) ∧
  (all_bytes not_dquote html = true → extractJSFiles html baseURL = []).
Proof.
  assert (∀ x, x ∈ extractJSFiles html baseURL →
     ∃ stem pre post,
       stem ≠ "" ∧ all_bytes not_dquote stem = true ∧
       html = pre +:+ srcAttr (stem +:+ ".js") post ∧
       x = resolveScript baseURL (stem +:+ ".js")) as Hsound.
  { intros x. rewrite extractJSFiles_map.
    intros (v & -> & Hv)%list_elem_of_fmap.
    apply jsCaptures_sound in Hv as (stem & pre & post & Hne & Hstem & -> & Hhtml).
    by exists stem, pre, post. }
  split; [exact Hsound|]. intros Hfree.
  destruct (extractJSFiles html baseURL) as [|x l] eqn:Hjs; [done|]. exfalso.
  destruct (Hsound x) as (stem & pre & post & _ & _ & Hhtml & _);
    [apply list_elem_of_here|].
  rewrite Hhtml in Hfree. unfold srcAttr in Hfree.
  rewrite <- app_assoc_s in Hfree. by apply all_bytes_mid in Hfree.
Qed.

Example longer_attribute_demo :
  extractJSFiles ("<img data-src=" +:+ String dquote ("a.js" +:+ String dquote ">"))
                 "https://x.com" = ["https://x.com/a.js"].
Proof. by vm_compute. Qed.

Example single_quoted_demo :
  extractJSFiles "<script src='/app.js'></script><script src=/lib.js></script>"
                 "https://x.com" = [].
Proof. by vm_compute. Qed.

(** ** The run of [processURL] *)

Lemma scanScripts_stable {World : Type}
    (fetch : string → World → option string * World) (net : string → option string)
    (sensitiveWords : list string) (targetURL : string)
    (jsFiles : list string) (w : World) :
  (∀ u w, fetch u w = (net u, w)) →
  scanScripts fetch sensitiveWords targetURL jsFiles w
  = (flat_map (scriptLinks net targetURL) jsFiles,
     flat_map (scriptSubdomains net targetURL) jsFiles,
     flat_map (scriptFindings net sensitiveWords) jsFiles, w).
Proof.
  intros Hnet. unfold scanScripts.
  assert (∀ jsFiles r s d,
    fold_left (scanScript fetch sensitiveWords targetURL) jsFiles (r, s, d, w)
    = (r ++ flat_map (scriptLinks net targetURL) jsFiles,
       s ++ flat_map (scriptSubdomains net targetURL) jsFiles,
       d ++ flat_map (scriptFindings net sensitiveWords) jsFiles, w)) as Hfold.
  { clear jsFiles. induction jsFiles as [|jsFile jsFiles IH]; intros r s d; simpl.
    - by rewrite !app_nil_r.
    - rewrite Hnet. unfold scriptLinks, scriptSubdomains, scriptFindings.
      destruct (net jsFile) as [jsContent|]; rewrite IH; by rewrite <- ?app_assoc. }
  apply Hfold.
Qed.

(** X13: on a network that answers each URL the same way throughout, the
    report of [processURL] is the aggregate over the script references of
    the page of what each script that can be fetched gives; a script that
    cannot be fetched adds nothing and takes nothing away from the others:
    whatever the filters keep of a fetched script is reported. *)
Theorem processURL_stable_network {World : Type}
    (fetch : string → World → option string * World) (net : string → option string)
    (sensitiveWords : list string) (targetURL body : string) (w : World) :
  (∀ u w, fetch u w = (net u, w)) →
  net targetURL = Some body →
  extractJSFiles body targetURL ≠ [] →
  let jsFiles := extractJSFiles body targetURL in
  processURL fetch sensitiveWords targetURL w
  = (Some {| Links := removeDuplicates (flat_map (scriptLinks net targetURL) jsFiles);
             Subdomains :=
               removeDuplicates (flat_map (scriptSubdomains net targetURL) jsFiles);
             JSFiles := removeDuplicates jsFiles;
             SensitiveData :=
               removeDuplicates
                 (flat_map (scriptFindings net sensitiveWords) jsFiles) |}, w) ∧
  ∀ jsFile jsContent rs w',
    jsFile ∈ jsFiles → net jsFile = Some jsContent →
    processURL fetch sensitiveWords targetURL w = (Some rs, w') →
    (∀ L, L ∈ filterLinks (extractLinks jsContent targetURL) targetURL →
          L ∈ Links rs) ∧
    (∀ S, S ∈ filterSubdomains (extractSubdomains jsContent targetURL) targetURL →
          S ∈ Subdomains rs) ∧
    (∀ d, d ∈ findSensitiveData sensitiveWords jsContent jsFile →
          d ∈ SensitiveData rs).
Proof.
  intros Hnet Hpage Hjs jsFiles.
  assert (processURL fetch sensitiveWords targetURL w
  = (Some {| Links := removeDuplicates (flat_map (scriptLinks net targetURL) jsFiles);
             Subdomains :=
               removeDuplicates (flat_map (scriptSubdomains net targetURL) jsFiles);
             JSFiles := removeDuplicates jsFiles;
             SensitiveData :=
               removeDuplicates
                 (flat_map (scriptFindings net sensitiveWords) jsFiles) |}, w))
    as Hrun.
  { unfold processURL. rewrite Hnet, Hpage. fold jsFiles.
    destruct jsFiles as [|jsFile l] eqn:Hl; [done|]. simpl length. cbn [Nat.eqb].
    by rewrite (scanScripts_stable fetch net). }
  split; [exact Hrun|].
  intros jsFile jsContent rs w' Hin Hnetjs Hrs. rewrite Hrun in Hrs.
  injection Hrs as <- <-. cbn [Links Subdomains SensitiveData].
  repeat split; intros x Hx; apply removeDuplicates_elem_of, list_elem_of_In,
    in_flat_map; exists jsFile; (split; [by apply list_elem_of_In|]);
    apply list_elem_of_In.
  - unfold scriptLinks. by rewrite Hnetjs.
  - unfold scriptSubdomains. by rewrite Hnetjs.
  - unfold scriptFindings. by rewrite Hnetjs.
Qed.

Lemma processURL_stable_network_witness :
  (∀ u w, twoFetch u w = (twoNet u, w)) ∧
  twoNet "https://x.com" = Some twoScriptPage ∧
  extractJSFiles twoScriptPage "https://x.com" ≠ [] ∧
  processURL twoFetch ["SECRET_KEY"] "https://x.com" tt
  = (Some {| Links := removeDuplicates
               (flat_map (scriptLinks twoNet "https://x.com")
                         (extractJSFiles twoScriptPage "https://x.com"));
             Subdomains := removeDuplicates
               (flat_map (scriptSubdomains twoNet "https://x.com")
                         (extractJSFiles twoScriptPage "https://x.com"));
             JSFiles := removeDuplicates
               (extractJSFiles twoScriptPage "https://x.com");
             SensitiveData := removeDuplicates
               (flat_map (scriptFindings twoNet ["SECRET_KEY"])
                         (extractJSFiles twoScriptPage "https://x.com")) |}, tt).
Proof.
  assert (∀ u w, twoFetch u w = (twoNet u, w)) as Hnet by reflexivity.
  assert (twoNet "https://x.com" = Some twoScriptPage) as Hpage by reflexivity.
  assert (extractJSFiles twoScriptPage "https://x.com" ≠ []) as Hjs
    by (vm_compute; discriminate).
  split; [exact Hnet|]. split; [exact Hpage|]. split; [exact Hjs|].
  exact (proj1 (processURL_stable_network twoFetch twoNet ["SECRET_KEY"]
                  "https://x.com" twoScriptPage tt Hnet Hpage Hjs)).
Defined.

Example two_scripts_demo :
  processURL twoFetch ["SECRET_KEY"] "https://x.com" tt
  = (Some {| Links := ["https://api.x.com/v1"];
             Subdomains := ["api.x.com"];
             JSFiles := ["https://x.com//app.js"; "https://x.com//gone.js"];
             SensitiveData := [finding "SECRET_KEY" "https://x.com//app.js"] |}, tt).
Proof. by vm_compute. Qed.

Lemma scanScripts_all_fail {World : Type}
    (fetch : string → World → option string * World)
    (sensitiveWords : list string) (targetURL : string)
    (jsFiles : list string) (w : World) :
  (∀ u w, u ∈ jsFiles → fst (fetch u w) = None) →
  ∃ w', scanScripts fetch sensitiveWords targetURL jsFiles w = ([], [], [], w').
Proof.
  unfold scanScripts. revert w.
  induction jsFiles as [|jsFile jsFiles IH]; intros w Hfail; simpl.
  - by exists w.
  - pose proof (Hfail jsFile w (list_elem_of_here _ _)) as Hf.
    destruct (fetch jsFile w) as [[c|] w1]; [done|].
    apply IH. intros u w2 Hu. apply Hfail. by apply list_elem_of_further.
Qed.

(** X14: when the page is fetched and names scripts but no script can be
    fetched, [processURL] still reports: the script references,
    deduplicated and sorted, and nothing in the other three lists. *)
Theorem processURL_unreachable_scripts {World : Type}
    (fetch : string → World → option string * World)
    (sensitiveWords : list string) (targetURL body : string) (w w1 : World) :
  fetch targetURL w = (Some body, w1) →
  extractJSFiles body targetURL ≠ [] →
  (∀ u w, u ∈ extractJSFiles body targetURL → fst (fetch u w) = None) →
  ∃ w',
    processURL fetch sensitiveWords targetURL w
    = (Some {| Links := []; Subdomains := [];
               JSFiles := removeDuplicates (extractJSFiles body targetURL);
               SensitiveData := [] |}, w').
Proof.
  intros Hpage Hjs Hfail. unfold processURL. rewrite Hpage.
  destruct (scanScripts_all_fail fetch sensitiveWords targetURL _ w1 Hfail)
    as [w' Hscan].
  destruct (extractJSFiles body targetURL) as [|jsFile l] eqn:Hl; [done|].
  simpl length. cbn [Nat.eqb]. rewrite Hscan. by exists w'.
Qed.

Lemma processURL_unreachable_scripts_witness :
  cdnFetch "https://x.com" tt
    = (Some ("<script " +:+ srcAttr "https://cdn.other.net/lib.js" "></script>"), tt) ∧
  extractJSFiles ("<script " +:+ srcAttr "https://cdn.other.net/lib.js" "></script>")
                 "https://x.com" ≠ [] ∧
  (∀ u w, u ∈ extractJSFiles
                ("<script " +:+ srcAttr "https://cdn.other.net/lib.js" "></script>")
                "https://x.com" →
          fst (cdnFetch u w) = None) ∧
  ∃ w',
    processURL cdnFetch [] "https://x.com" tt
    = (Some {| Links := []; Subdomains := [];
               JSFiles := removeDuplicates
                 (extractJSFiles
                    ("<script " +:+ srcAttr "https://cdn.other.net/lib.js" "></script>")
                    "https://x.com");
               SensitiveData := [] |}, w').
Proof.
  assert (cdnFetch "https://x.com" tt
    = (Some ("<script " +:+ srcAttr "https://cdn.other.net/lib.js" "></script>"), tt))
    as Hpage by reflexivity.
  assert (extractJSFiles
            ("<script " +:+ srcAttr "https://cdn.other.net/lib.js" "></script>")
            "https://x.com" ≠ []) as Hjs by (vm_compute; discriminate).
  assert (∀ u w, u ∈ extractJSFiles
                ("<script " +:+ srcAttr "https://cdn.other.net/lib.js" "></script>")
                "https://x.com" →
          fst (cdnFetch u w) = None) as Hfail.
  { intros u w Hu. vm_compute in Hu. apply list_elem_of_singleton in Hu.
    subst u. reflexivity. }
  split; [exact Hpage|]. split; [exact Hjs|]. split; [exact Hfail|].
  exact (processURL_unreachable_scripts cdnFetch [] "https://x.com" _ tt tt
           Hpage Hjs Hfail).
Defined.



Example processURL_requests_demo :
  snd (processURL
         (logged (fun u =>
            if String.eqb u "https://x.com"
            then Some ("<script " +:+ srcAttr "a.js" "></script>" +:+
                       "<script " +:+ srcAttr "a.js" "></script>")
            else None))
         [] "https://x.com" [])
  = ["https://x.com"; "https://x.com/a.js"; "https://x.com/a.js"].
Proof. by vm_compute. Qed.

(** ** The sensitive-data matcher, further *)

(** X16: [findSensitiveData] goes through the words in order and one by
    one: the findings for two lists of words joined are the findings for
    the first followed by those for the second, there are never more
    findings than words, a word listed twice is found twice, and an empty
    word is found in every script. *)
Theorem findSensitiveData_word_by_word
    (ws1 ws2 : list string) (jsContent jsFile word : string) :
  findSensitiveData (ws1 ++ ws2) jsContent jsFile
  = findSensitiveData ws1 jsContent jsFile ++
    findSensitiveData ws2 jsContent jsFile ∧
  length (findSensitiveData ws1 jsContent jsFile) ≤ length ws1 ∧
  findSensitiveData (word :: word :: ws1) jsContent jsFile
  = findSensitiveData [word] jsContent jsFile ++
    findSensitiveData [word] jsContent jsFile ++
    findSensitiveData ws1 jsContent jsFile ∧
  findSensitiveData ("" :: ws1) jsContent jsFile
  = finding "" jsFile :: findSensitiveData ws1 jsContent jsFile.
Proof.
  rewrite !findSensitiveData_map. repeat split.
  - by rewrite List.filter_app, map_app.
  - rewrite length_map. apply filter_length_le.
  - simpl. by destruct (strings.Contains jsContent word).
  - simpl. by rewrite Contains_empty.
Qed.

(** ** Fragments, further *)

Lemma Cut_absent (s : string) (sep : ascii) :
  all_bytes (fun c => negb (Ascii.eqb c sep)) s = true →
  strings.Cut s sep = (s, "", false).
Proof.
  induction s as [|c s IH]; [done|]. simpl.
  intros [Hc Hs]%andb_true_iff. apply negb_true_iff in Hc. by rewrite Hc, IH.
Qed.

Lemma Cut_first (s t : string) (sep : ascii) :
  all_bytes (fun c => negb (Ascii.eqb c sep)) s = true →
  strings.Cut (s +:+ String sep t) sep = (s, t, true).
Proof.
  induction s as [|c s IH].
  - intros _. rewrite app_empty_l. simpl. by rewrite Ascii.eqb_refl.
  - cbn [all_bytes]. intros [Hc Hs]%andb_true_iff. apply negb_true_iff in Hc.
    rewrite app_cons. cbn [strings.Cut]. by rewrite Hc, IH.
Qed.

(** The text of a URL without a fragment does not depend on the escaped
    form recorded for a fragment. *)
Lemma String_no_fragment (u : url.URL) (rawFragment fragment : string) :
  url.String_ (url.with_Fragment ""
    {| url.Scheme := url.Scheme u; url.Opaque := url.Opaque u;
       url.User := url.User u; url.Host := url.Host u; url.Path := url.Path u;
       url.RawPath := url.RawPath u; url.OmitHost := url.OmitHost u;
       url.ForceQuery := url.ForceQuery u; url.RawQuery := url.RawQuery u;
       url.Fragment := fragment; url.RawFragment := rawFragment |})
  = url.String_ (url.with_Fragment "" u).
Proof. by destruct u. Qed.

(** X17: for a text [s] without a number sign, [cleanURL] of [s] followed
    by a fragment is [cleanURL] of [s] when [s] parses and the escapes of
    the fragment are well formed; otherwise the whole text comes back
    unchanged, fragment included. *)
Theorem cleanURL_drops_fragment (s f : string) :
  hash_free s = true →
  match url.Parse s, url.unescape f url.encodeFragment with
  | Some _, Some _ => cleanURL (s +:+ "#" +:+ f) = cleanURL s
  | _, _ => cleanURL (s +:+ "#" +:+ f) = s +:+ "#" +:+ f
  end.
Proof.
  intros Hs. unfold cleanURL, url.Parse.
  change (s +:+ "#" +:+ f) with (s +:+ String "#" f).
  rewrite (Cut_absent s "#" Hs), (Cut_first s f "#" Hs). cbn [String.eqb].
  destruct (url.parse s) as [u|]; [|done].
  destruct (String.eqb_spec f "") as [->|Hf]; [done|].
  unfold url.setFragment.
  destruct (url.unescape f url.encodeFragment) as [frag|]; [|done].
  destruct (String.eqb f _); apply String_no_fragment.
Qed.

Lemma cleanURL_drops_fragment_witness :
  hash_free "https://x.com/a?b=c" = true ∧
  cleanURL ("https://x.com/a?b=c" +:+ "#" +:+ "top%20of") = cleanURL "https://x.com/a?b=c".
Proof.
  assert (hash_free "https://x.com/a?b=c" = true) as Hs by reflexivity.
  split; [exact Hs|].
  exact (cleanURL_drops_fragment "https://x.com/a?b=c" "top%20of" Hs).
Defined.

Example cleanURL_bad_fragment_demo :
  cleanURL "https://x.com/a#100%" = "https://x.com/a#100%" ∧
  extractLinks "u = 'https://x.com/a#100%'" "https://x.com" = ["https://x.com/a#100%"].
Proof. by vm_compute. Qed.

(** ** What the reported URLs are made of *)

Lemma cleanURL_hash_or_unparsed (s : string) :
  hash_free (cleanURL s) = true ∨ url.Parse (cleanURL s) = None.
Proof.
  unfold cleanURL. destruct (url.Parse s) as [u|] eqn:HP; [left|by right].
  apply String_fragmentless; [|done]. by apply Parse_fragmentless in HP.
Qed.

Lemma extractLinks_cleaned (jsContent baseURL L : string) :
  L ∈ extractLinks jsContent baseURL → ∃ m, L = cleanURL m.
Proof.
  rewrite extractLinks_lines, list_elem_of_In, in_flat_map.
  intros (line & _ & HL%list_elem_of_In).
  unfold lineLinks in HL. apply list_elem_of_fmap in HL as (m & -> & _).
  by exists m.
Qed.

(** Where the strings [processURL] reports come from. *)
Lemma reported_from {World : Type}
    (fetch : string → World → option string * World)
    (sensitiveWords : list string) (targetURL : string) (w w' : World)
    (rs : ResultSet) :
  processURL fetch sensitiveWords targetURL w = (Some rs, w') →
  (∀ L, L ∈ Links rs → ∃ jsContent, L ∈ extractLinks jsContent targetURL) ∧
  (∀ S, S ∈ Subdomains rs →
        ∃ jsContent, S ∈ extractSubdomains jsContent targetURL) ∧
  (∃ body, ∀ J, J ∈ JSFiles rs ↔ J ∈ extractJSFiles body targetURL).
Proof.
  intros Hrun.
  apply processURL_Some in Hrun
    as (body & w1 & results & subdomains & sensitiveData & _ & _ & Hscan & ->).
  cbn [Links Subdomains JSFiles].
  apply (scanScripts_keeps fetch sensitiveWords
           (fun r s _ =>
              Forall (fun L => ∃ jsContent, L ∈ extractLinks jsContent targetURL) r ∧
              Forall (fun S => ∃ jsContent,
                        S ∈ extractSubdomains jsContent targetURL) s)
           targetURL) in Hscan as [Hr Hs].
  - rewrite Forall_forall in Hr. rewrite Forall_forall in Hs.
    split; [|split].
    + intros L HL. rewrite removeDuplicates_elem_of in HL. by apply Hr.
    + intros S HS. rewrite removeDuplicates_elem_of in HS. by apply Hs.
    + exists body. intros J. apply removeDuplicates_elem_of.
  - by split.
  - intros r s _ _ jsContent [Hr Hs]. split; apply Forall_app; (split; [done|]);
      apply Forall_forall; intros x Hx; exists jsContent.
    + by apply filterLinks_elem_of in Hx as [? _].
    + by apply filterSubdomains_elem_of in Hx as [? _].
Qed.

(** X18: a URL that [processURL] reports as a link or as a script
    reference holds a number sign only if it does not parse: the fragment
    of every URL that parses has been stripped. *)
Theorem reported_urls_without_fragment {World : Type}
    (fetch : string → World → option string * World)
    (sensitiveWords : list string) (targetURL : string) (w w' : World)
    (rs : ResultSet) (U : string) :
  processURL fetch sensitiveWords targetURL w = (Some rs, w') →
  U ∈ Links rs ∨ U ∈ JSFiles rs →
  hash_free U = true ∨ url.Parse U = None.
Proof.
  intros Hrun HU. apply reported_from in Hrun as (Hlinks & _ & body & Hjs).
  destruct HU as [HL|HJ].
  - destruct (Hlinks U HL) as [jsContent Hin].
    apply extractLinks_cleaned in Hin as [m ->]. apply cleanURL_hash_or_unparsed.
  - apply Hjs in HJ. rewrite extractJSFiles_map in HJ.
    apply list_elem_of_fmap in HJ as (v & -> & _).
    unfold resolveScript. apply cleanURL_hash_or_unparsed.
Qed.

Lemma reported_urls_without_fragment_witness :
  processURL demoFetch ["SECRET_KEY"] "https://x.com" tt = (Some demoResult, tt) ∧
  ("https://api.x.com/v1" ∈ Links demoResult ∨
   "https://api.x.com/v1" ∈ JSFiles demoResult) ∧
  (hash_free "https://api.x.com/v1" = true ∨ url.Parse "https://api.x.com/v1" = None).
Proof.
  assert (processURL demoFetch ["SECRET_KEY"] "https://x.com" tt
          = (Some demoResult, tt)) as Hrun by (vm_compute; reflexivity).
  assert ("https://api.x.com/v1" ∈ Links demoResult ∨
          "https://api.x.com/v1" ∈ JSFiles demoResult) as Hin
    by (left; simpl; apply list_elem_of_here).
  split; [exact Hrun|]. split; [exact Hin|].
  exact (reported_urls_without_fragment demoFetch ["SECRET_KEY"] "https://x.com"
           tt tt demoResult "https://api.x.com/v1" Hrun Hin).
Defined.

(** ** Bytes that writing a URL never produces

    A class [q] of bytes that every escape form keeps to, that the check of
    an escaped path enforces, and that lowering a letter and the marks
    [String] writes stay in: a text made of such bytes is made of such
    bytes after [cleanURL]. *)

Section kept_bytes.

Variable q : ascii → bool.
Hypothesis q_escape : ∀ c mode, all_bytes q (url.escape (String c "") mode) = true.
Hypothesis q_valid : ∀ c mode,
  one_of "!$&'()*+,;=:@[]%" c || negb (url.shouldEscape c mode) = true → q c = true.
Hypothesis q_lower : ∀ c, q c = true → q (strings.lower_byte c) = true.
Hypothesis q_marks : all_bytes q ":/@.?*" = true.

Lemma kept_escape s mode : all_bytes q (url.escape s mode) = true.
Proof using q_escape.
  induction s as [|c s IH]; [done|].
  pose proof (q_escape c mode) as Hc. revert Hc. simpl.
  destruct (url.shouldEscape c mode), mode; simpl;
    try destruct (Ascii.eqb c " "); simpl; rewrite ?IH, ?andb_true_r; try done.
Qed.

Lemma kept_validEncoded s mode :
  url.validEncoded s mode = true → all_bytes q s = true.
Proof using q_valid.
  induction s as [|c s IH]; [done|]. simpl.
  intros [Hc Hs]%andb_true_iff. by rewrite (q_valid c mode Hc), IH.
Qed.

Lemma kept_ToLower s : all_bytes q s = true → all_bytes q (strings.ToLower s) = true.
Proof using q_lower.
  induction s as [|c s IH]; [done|]. simpl.
  intros [Hc Hs]%andb_true_iff. by rewrite q_lower, IH.
Qed.

Lemma kept_getScheme_from i s rawURL scheme rest :
  all_bytes q s = true → all_bytes q rawURL = true →
  url.getScheme_from i s rawURL = Some (scheme, rest) →
  all_bytes q scheme = true ∧ all_bytes q rest = true.
Proof.
  revert i. induction s as [|c s IH]; intros i.
  - by intros _ ? [= <- <-].
  - intros [Hc Hs]%andb_true_iff Hraw. cbn [url.getScheme_from].
    destruct (is_lower c || is_upper c); [by apply IH|].
    destruct (is_digit c || one_of "+-." c).
    { destruct (i =? 0); [by intros [= <- <-]|by apply IH]. }
    destruct (Ascii.eqb c ":").
    { destruct (i =? 0); [done|]. intros [= <- <-].
      split; [by apply all_bytes_substring|done]. }
    by intros [= <- <-].
Qed.

Lemma kept_parse rawURL u :
  all_bytes q rawURL = true → url.parse rawURL = Some u → kept_fields q u.
Proof using q_lower.
  intros Hraw. unfold url.parse.
  destruct (url.stringContainsCTLByte rawURL); [done|].
  destruct (String.eqb rawURL "*"); [by intros [= <-]|].
  destruct (url.getScheme rawURL) as [[scheme0 rest0]|] eqn:Hget; [|done].
  apply kept_getScheme_from in Hget as [Hscheme Hrest]; [|done..].
  apply kept_ToLower in Hscheme.
  destruct (_ && _) eqn:Hq at 1.
  - assert (all_bytes q (strings.upto (String.length rest0 - 1) rest0) = true)
      as Hrest1 by by apply all_bytes_substring.
    revert Hrest1. generalize (strings.upto (String.length rest0 - 1) rest0) as rest1.
    intros rest1 Hrest1. cbv zeta.
    repeat (case_match; simplify_eq); intros; simplify_eq; by repeat split.
  - destruct (strings.Cut rest0 "?") as [[rest1 rawQuery] f] eqn:Hcut.
    apply (all_bytes_Cut q) in Hcut as [Hrest1 Hquery]; [|done].
    cbv zeta.
    repeat (case_match; simplify_eq); intros; simplify_eq; by repeat split.
Qed.

Lemma kept_Parse rawURL u :
  all_bytes q rawURL = true → url.Parse rawURL = Some u → kept_fields q u.
Proof using q_lower.
  intros Hraw. unfold url.Parse.
  destruct (strings.Cut rawURL "#") as [[before frag] found] eqn:Hcut.
  apply (all_bytes_Cut q) in Hcut as [Hbefore _]; [|done].
  destruct (url.parse before) as [parsed|] eqn:Hparse; [|done].
  apply kept_parse in Hparse; [|done].
  destruct (String.eqb frag ""); [by intros [= <-]|].
  destruct (url.setFragment frag) as [[fragment rawFragment]|]; [|done].
  by intros [= <-].
Qed.

Lemma kept_EscapedPath u : all_bytes q (url.EscapedPath u) = true.
Proof using q_escape q_valid q_marks.
  unfold url.EscapedPath.
  assert (all_bytes q (if String.eqb (url.Path u) "*" then "*"
                       else url.escape (url.Path u) url.encodePath) = true) as Hfall.
  { destruct (String.eqb (url.Path u) "*"); [|apply kept_escape].
    simpl. by rewrite (all_bytes_mid q ":/@.?" "*" "" q_marks). }
  destruct (negb _ && _) eqn:Hraw; [|done].
  apply andb_true_iff in Hraw as [_ Hvalid].
  destruct (url.unescape (url.RawPath u) url.encodePath) as [p|]; [|done].
  destruct (String.eqb p (url.Path u)); [|done].
  by eapply kept_validEncoded.
Qed.

Lemma kept_String u :
  kept_fields q u → url.Fragment u = "" → all_bytes q (url.String_ u) = true.
Proof using q_escape q_valid q_marks.
  intros (Hscheme & Hopaque & Hquery) Hfrag. unfold url.String_. rewrite Hfrag.
  cbv zeta. change (String.eqb "" "") with true. cbn [negb].
  pose proof q_marks as Hm. simpl in Hm. rewrite !andb_true_iff in Hm.
  destruct Hm as (Hcolon & Hslash & Hat & Hdot & Hquest & Hstar & _).
  assert (all_bytes q ":" = true) as Hc1 by (simpl; by rewrite Hcolon).
  assert (all_bytes q "//" = true) as Hc2 by (simpl; by rewrite Hslash).
  assert (all_bytes q "@" = true) as Hc3 by (simpl; by rewrite Hat).
  assert (all_bytes q "/" = true) as Hc4 by (simpl; by rewrite Hslash).
  assert (all_bytes q "./" = true) as Hc5 by (simpl; by rewrite Hdot, Hslash).
  assert (all_bytes q "?" = true) as Hc6 by (simpl; by rewrite Hquest).
  rewrite !all_bytes_app.
  assert (all_bytes q (if String.eqb (url.Scheme u) "" then ""
                       else url.Scheme u +:+ ":") = true) as Hs.
  { destruct (String.eqb (url.Scheme u) ""); [done|].
    by rewrite all_bytes_app, Hscheme. }
  repeat (apply andb_true_iff; split).
  - destruct (negb (String.eqb (url.Opaque u) "")).
    + by rewrite all_bytes_app, Hs, Hopaque.
    + rewrite !all_bytes_app, Hs, kept_EscapedPath, andb_true_r. simpl.
      repeat (apply andb_true_iff; split).
      * destruct (_ || _); [|done]. destruct (_ && _); [done|].
        rewrite !all_bytes_app. repeat (apply andb_true_iff; split).
        -- by destruct (_ || _).
        -- destruct (url.User u) as [ui|]; [|done].
           rewrite all_bytes_app, Hc3, andb_true_r. unfold url.Userinfo_String.
           rewrite all_bytes_app, kept_escape.
           destruct (url.passwordSet ui); [|done].
           by rewrite all_bytes_app, kept_escape, Hc1.
        -- destruct (String.eqb (url.Host u) ""); [done|apply kept_escape].
      * by destruct (_ && _).
      * by destruct (_ && _).
  - destruct (_ || _); [|done]. by rewrite all_bytes_app, Hquery, Hc6.
  - done.
Qed.

Lemma kept_cleanURL s : all_bytes q s = true → all_bytes q (cleanURL s) = true.
Proof using q_escape q_valid q_lower q_marks.
  intros Hs. unfold cleanURL. destruct (url.Parse s) as [u|] eqn:HP; [|done].
  apply kept_String; [|done]. by apply kept_Parse in HP.
Qed.

End kept_bytes.

Lemma not_space_escape c mode :
  all_bytes not_space (url.escape (String c "") mode) = true.
Proof. destruct mode, c as [[] [] [] [] [] [] [] []]; by vm_compute. Qed.

Lemma not_space_valid c mode :
  one_of "!$&'()*+,;=:@[]%" c || negb (url.shouldEscape c mode) = true →
  not_space c = true.
Proof. destruct mode, c as [[] [] [] [] [] [] [] []]; by vm_compute. Qed.

Lemma not_space_lower c : not_space c = true → not_space (strings.lower_byte c) = true.
Proof. destruct c as [[] [] [] [] [] [] [] []]; by vm_compute. Qed.

Lemma not_space_cleanURL s :
  all_bytes not_space s = true → all_bytes not_space (cleanURL s) = true.
Proof.
  apply (kept_cleanURL not_space not_space_escape not_space_valid not_space_lower).
  by vm_compute.
Qed.

Lemma linkRe_alphabet (c : ascii) : alphabet linkRe c = true → not_space c = true.
Proof. destruct c as [[] [] [] [] [] [] [] []]; by vm_compute. Qed.

Lemma host_byte_not_space (c : ascii) : host_byte c = true → not_space c = true.
Proof. destruct c as [[] [] [] [] [] [] [] []]; by vm_compute. Qed.

Lemma extractLinks_not_space (jsContent baseURL L : string) :
  L ∈ extractLinks jsContent baseURL → all_bytes not_space L = true.
Proof.
  rewrite extractLinks_lines, list_elem_of_In, in_flat_map.
  intros (line & _ & HL%list_elem_of_In).
  unfold lineLinks in HL. apply list_elem_of_fmap in HL as (m & -> & Hm).
  apply elem_of_List_filter in Hm as [Hm _].
  apply elem_of_FindAllString in Hm as (pre & post & b & st & _ & _ & Ha & _).
  apply not_space_cleanURL. eapply all_bytes_impl; [apply linkRe_alphabet|done].
Qed.

Lemma extractSubdomains_not_space (jsContent baseURL S : string) :
  S ∈ extractSubdomains jsContent baseURL → all_bytes not_space S = true.
Proof.
  rewrite extractSubdomains_lines, list_elem_of_In, in_flat_map.
  intros (line & _ & HS%list_elem_of_In).
  unfold lineSubdomains in HS. apply elem_of_List_filter in HS as [HS _].
  apply elem_of_FindAllString in HS as (pre & post & b & st & _ & _ & Ha & _).
  eapply all_bytes_impl; [|exact Ha].
  intros c Hc. by apply host_byte_not_space, subdomainRe_alphabet.
Qed.

(** X19: every link and every host name [processURL] reports is free of
    white space, and [cleanURL] would put none into it: parsing a URL and
    writing it again turns no byte into a space, a tab or a line break. *)
Theorem reported_without_white_space {World : Type}
    (fetch : string → World → option string * World)
    (sensitiveWords : list string) (targetURL : string) (w w' : World)
    (rs : ResultSet) (U : string) :
  processURL fetch sensitiveWords targetURL w = (Some rs, w') →
  U ∈ Links rs ∨ U ∈ Subdomains rs →
  all_bytes not_space U = true ∧ all_bytes not_space (cleanURL U) = true.
Proof.
  intros Hrun HU. apply reported_from in Hrun as (Hlinks & Hsubs & _).
  assert (all_bytes not_space U = true) as HU'.
  { destruct HU as [HL|HS].
    - destruct (Hlinks U HL) as [jsContent Hin]. by eapply extractLinks_not_space.
    - destruct (Hsubs U HS) as [jsContent Hin]. by eapply extractSubdomains_not_space. }
  split; [done|]. by apply not_space_cleanURL.
Qed.

Lemma reported_without_white_space_witness :
  processURL demoFetch ["SECRET_KEY"] "https://x.com" tt = (Some demoResult, tt) ∧
  ("api.x.com" ∈ Links demoResult ∨ "api.x.com" ∈ Subdomains demoResult) ∧
  all_bytes not_space "api.x.com" = true ∧
  all_bytes not_space (cleanURL "api.x.com") = true.
Proof.
  assert (processURL demoFetch ["SECRET_KEY"] "https://x.com" tt
          = (Some demoResult, tt)) as Hrun by (vm_compute; reflexivity).
  assert ("api.x.com" ∈ Links demoResult ∨ "api.x.com" ∈ Subdomains demoResult) as Hin
    by (right; simpl; apply list_elem_of_here).
  split; [exact Hrun|]. split; [exact Hin|].
  exact (reported_without_white_space demoFetch ["SECRET_KEY"] "https://x.com"
           tt tt demoResult "api.x.com" Hrun Hin).
Defined.

(** White space is all that is kept out: the zone of an address in
    brackets is unescaped by [url.Parse] and written back by [String]
    without escaping a double quote, so a link the pattern matched, which
    holds no double quote, is reported with one. *)
Example link_with_quote_demo :
  extractLinks "see http://[fe80::1%25%22]/x" ""
  = ["http://[fe80::1%25" +:+ String dquote "]/x"].
Proof. by vm_compute. Qed.

(** ** The files of results *)

Lemma writeLines_full (data : list string) (file : string) :
  writeLines fullWrite data file = file +:+ writeLines fullWrite data "".
Proof.
  revert file. induction data as [|line rest IH]; intros file; cbn.
  - by rewrite app_empty_r.
  - rewrite IH, (IH ("" +:+ _)), app_empty_l. by rewrite !app_assoc_s.
Qed.

Lemma Split_free (s : string) (sep : ascii) :
  strings.Count s sep = 0 → strings.Split s sep = [s].
Proof.
  induction s as [|c s IH]; [done|]. simpl.
  destruct (Ascii.eqb c sep); [done|]. intros Hs. by rewrite IH.
Qed.

Lemma not_space_no_newline (s : string) :
  all_bytes not_space s = true → strings.Count s newline = 0.
Proof.
  induction s as [|c s IH]; [done|]. simpl.
  intros [Hc Hs]%andb_true_iff. rewrite IH by done.
  destruct (Ascii.eqb_spec c newline) as [->|]; [done|done].
Qed.

Lemma saveToFile_lines (data : list string) :
  Forall (fun line => strings.Count line newline = 0) data →
  strings.Split (saveToFile fullWrite data) newline = data ++ [""].
Proof.
  unfold saveToFile. induction 1 as [|line rest Hline Hrest IH]; [done|].
  cbn. rewrite writeLines_full, ?app_empty_l, app_assoc_s, app_cons, app_empty_l.
  by rewrite Split_app, IH, Split_free.
Qed.

(** X20: when every write succeeds, the file [saveToFile] writes splits at
    its newlines into the entries, in order, followed by one empty piece,
    exactly when no entry holds a newline; and it is never shorter than
    one line an entry. *)
Theorem saveToFile_one_entry_per_line (data : list string) :
  (strings.Split (saveToFile fullWrite data) newline = data ++ [""]
   ↔ Forall (fun line => strings.Count line newline = 0) data) ∧
  length data < length (strings.Split (saveToFile fullWrite data) newline).
Proof.
  split.
  - split; [|apply saveToFile_lines].
    intros Heq. pose proof (Split_no_sep (saveToFile fullWrite data) newline) as Hfree.
    rewrite Heq in Hfree. by apply Forall_app in Hfree as [? _].
  - unfold saveToFile. induction data as [|line rest IH]; [simpl; lia|].
    cbn. rewrite writeLines_full, ?app_empty_l, app_assoc_s, app_cons, app_empty_l.
    rewrite Split_app, length_app. pose proof (Split_nonempty line newline).
    destruct (strings.Split line newline); [done|]. simpl in *. lia.
Qed.

(** X21: the links file and the subdomains file that follow a run of
    [processURL] hold one reported entry a line; the file of script
    references need not, since the value of a [src] attribute may hold a
    line break. *)
Theorem saved_links_one_per_line {World : Type}
    (fetch : string → World → option string * World)
    (sensitiveWords : list string) (targetURL : string) (w w' : World)
    (rs : ResultSet) :
  processURL fetch sensitiveWords targetURL w = (Some rs, w') →
  strings.Split (saveToFile fullWrite (Links rs)) newline = Links rs ++ [""] ∧
  strings.Split (saveToFile fullWrite (Subdomains rs)) newline = Subdomains rs ++ [""].
Proof.
  intros Hrun. apply reported_from in Hrun as (Hlinks & Hsubs & _).
  split; apply saveToFile_lines, Forall_forall; intros U HU;
    apply not_space_no_newline.
  - destruct (Hlinks U HU) as [jsContent Hin]. by eapply extractLinks_not_space.
  - destruct (Hsubs U HU) as [jsContent Hin]. by eapply extractSubdomains_not_space.
Qed.

Lemma saved_links_one_per_line_witness :
  processURL demoFetch ["SECRET_KEY"] "https://x.com" tt = (Some demoResult, tt) ∧
  strings.Split (saveToFile fullWrite (Links demoResult)) newline
  = Links demoResult ++ [""] ∧
  strings.Split (saveToFile fullWrite (Subdomains demoResult)) newline
  = Subdomains demoResult ++ [""].
Proof.
  assert (processURL demoFetch ["SECRET_KEY"] "https://x.com" tt
          = (Some demoResult, tt)) as Hrun by (vm_compute; reflexivity).
  split; [exact Hrun|].
  exact (saved_links_one_per_line demoFetch ["SECRET_KEY"] "https://x.com"
           tt tt demoResult Hrun).
Defined.

(** One script reference, two lines in the file. *)
Example broken_reference_demo :
  extractJSFiles brokenPage "https://x.com"
  = ["https://x.com/a" +:+ String newline "b.js"] ∧
  strings.Split (saveToFile fullWrite (extractJSFiles brokenPage "https://x.com")) newline
  = ["https://x.com/a"; "b.js"; ""].
Proof. by vm_compute. Qed.

(** ** Reading lists back: the scanner of lines *)

Lemma Split_saved (data : list string) :
  strings.Split (saveToFile fullWrite data) newline
  = flat_map (fun line => strings.Split line newline) data ++ [""].
Proof.
  unfold saveToFile. induction data as [|line rest IH]; [done|].
  cbn. rewrite writeLines_full, ?app_empty_l, app_assoc_s, app_cons, app_empty_l.
  by rewrite Split_app, IH, app_assoc.
Qed.

Lemma dropFinalEmpty_snoc (pieces : list string) :
  bufio.dropFinalEmpty (pieces ++ [""]) = pieces.
Proof.
  induction pieces as [|p ps IH]; [done|]. simpl.
  destruct (ps ++ [""]) as [|p' ps'] eqn:Hps; [by destruct ps|]. by rewrite IH.
Qed.

Lemma elem_of_dropFinalEmpty (pieces : list string) (p : string) :
  p ∈ bufio.dropFinalEmpty pieces → p ∈ pieces.
Proof.
  induction pieces as [|p1 ps IH]; [done|]. simpl.
  destruct ps as [|p2 ps].
  - destruct (String.eqb p1 ""); [by intros ?%elem_of_nil|done].
  - rewrite !(elem_of_cons _ p p1). intros [->|Hp]; [by left|right; by apply IH].
Qed.

Lemma scanAll_saved (data : list string) :
  bufio.scanAll (saveToFile fullWrite data)
  = bufio.scanPieces (flat_map (fun line => strings.Split line newline) data).
Proof. unfold bufio.scanAll. by rewrite Split_saved, dropFinalEmpty_snoc. Qed.

Lemma scanPieces_ok (pieces tokens : list string) :
  bufio.scanPieces pieces = (tokens, true) ↔
  forallb bufio.fits pieces = true ∧ tokens = map bufio.dropCR pieces.
Proof.
  revert tokens. induction pieces as [|p ps IH]; intros tokens; simpl.
  - split; [by intros [= <-]|by intros [_ ->]].
  - destruct (bufio.fits p); [|split; [done|by intros [? _]]].
    destruct (bufio.scanPieces ps) as [ts ok]. simpl. split.
    + intros [= <- ->]. destruct (IH ts) as [[Hfits ->] _]; done.
    + intros [Hfits ->]. destruct (IH (map bufio.dropCR ps)) as [_ Hback].
      by injection (Hback (conj Hfits eq_refl)) as -> ->.
Qed.

Lemma elem_of_scanPieces (pieces : list string) (t : string) :
  t ∈ fst (bufio.scanPieces pieces) →
  ∃ p, p ∈ pieces ∧ bufio.fits p = true ∧ t = bufio.dropCR p.
Proof.
  induction pieces as [|p ps IH]; simpl; [by intros ?%elem_of_nil|].
  destruct (bufio.fits p) eqn:Hp; [|by intros ?%elem_of_nil].
  destruct (bufio.scanPieces ps) as [ts ok]. simpl in *.
  rewrite elem_of_cons. intros [->|Ht].
  - exists p. split; [by left|done].
  - destruct (IH Ht) as (p' & ? & ? & ?). exists p'. split; [by right|done].
Qed.

Lemma length_upto (n : nat) (s : string) :
  n ≤ String.length s → String.length (strings.upto n s) = n.
Proof.
  unfold strings.upto. revert n. induction s as [|c s IH]; intros [|n]; simpl; try lia.
  intros Hn. rewrite IH; lia.
Qed.

Lemma upto_app (s t : string) : strings.upto (String.length s) (s +:+ t) = s.
Proof.
  unfold strings.upto. induction s as [|c s IH]; [by destruct t|].
  rewrite app_cons. simpl. by rewrite IH.
Qed.

(** [dropCR] takes one final carriage return off, if there is one. *)
Lemma dropCR_cases (data : string) :
  (strings.HasSuffix data (String "013" "") = false ∧ bufio.dropCR data = data) ∨
  (strings.HasSuffix data (String "013" "") = true ∧
   data = bufio.dropCR data +:+ String "013" "").
Proof.
  unfold bufio.dropCR.
  destruct (strings.HasSuffix data (String "013" "")) eqn:Hcr; [right|by left].
  split; [done|]. apply HasSuffix_spec in Hcr as [pre ->].
  rewrite length_app_s. simpl String.length.
  replace (String.length pre + 1 - 1) with (String.length pre) by lia.
  by rewrite upto_app.
Qed.

Lemma dropCR_id (data : string) :
  bufio.dropCR data = data ↔ strings.HasSuffix data (String "013" "") = false.
Proof.
  destruct (dropCR_cases data) as [[Hcr Hid]|[Hcr Heq]]; [done|].
  rewrite Hcr. split; [|done]. intros Hid. rewrite Hid in Heq.
  apply (f_equal String.length) in Heq. rewrite length_app_s in Heq. simpl in Heq. lia.
Qed.

Lemma Count_app_s (s t : string) (sep : ascii) :
  strings.Count (s +:+ t) sep = strings.Count s sep + strings.Count t sep.
Proof.
  induction s as [|c s IH]; [done|]. rewrite app_cons. simpl. rewrite IH. lia.
Qed.

Lemma length_Split (s : string) (sep : ascii) :
  length (strings.Split s sep) = S (strings.Count s sep).
Proof.
  induction s as [|c s IH]; [done|]. simpl.
  destruct (Ascii.eqb c sep); simpl; [by rewrite IH|].
  destruct (strings.Split s sep); simpl in *; lia.
Qed.

Lemma flat_map_Split_id (data : list string) :
  Forall (fun line => strings.Count line newline = 0) data →
  flat_map (fun line => strings.Split line newline) data = data.
Proof.
  induction 1 as [|line rest Hline Hrest IH]; [done|].
  simpl. by rewrite Split_free, IH.
Qed.

Lemma length_flat_map_Split (data : list string) :
  length data ≤ length (flat_map (fun line => strings.Split line newline) data) ∧
  (length (flat_map (fun line => strings.Split line newline) data) = length data →
   Forall (fun line => strings.Count line newline = 0) data).
Proof.
  induction data as [|line rest [IH1 IH2]]; [by split|].
  simpl. rewrite length_app, length_Split. split; [lia|].
  intros Hlen. constructor; [lia|apply IH2; lia].
Qed.

Lemma map_fixed (f : string → string) (l : list string) :
  l = map f l → Forall (fun x => f x = x) l.
Proof.
  induction l as [|x l IH]; [done|]. simpl. intros [= Hx Hl]. by constructor; [|apply IH].
Qed.

Lemma map_fixed_id (f : string → string) (l : list string) :
  Forall (fun x => f x = x) l → map f l = l.
Proof. induction 1 as [|x l Hx Hl IH]; [done|]. simpl. by rewrite Hx, IH. Qed.

(** X22: a file [saveToFile] has written in full is read back by the
    scanning loop of [loadWordlist] and [processInputURLs] as the entries
    that were saved, in order and without error, exactly when no entry
    holds a newline, none ends in a carriage return and each fits the
    buffer of the scanner. *)
Theorem saved_file_read_back (data : list string) :
  bufio.scanAll (saveToFile fullWrite data) = (data, true) ↔
  Forall (fun line => strings.Count line newline = 0 ∧
                      strings.HasSuffix line (String "013" "") = false ∧
                      bufio.fits line = true) data.
Proof.
  rewrite scanAll_saved, scanPieces_ok. split.
  - intros [Hfits Hmap].
    assert (Forall (fun line => strings.Count line newline = 0) data) as Hfree.
    { apply length_flat_map_Split.
      rewrite Hmap at 2. by rewrite length_map. }
    rewrite flat_map_Split_id in Hfits, Hmap by done.
    apply map_fixed in Hmap. rewrite forallb_forall in Hfits.
    rewrite Forall_forall in Hfree, Hmap. apply Forall_forall. intros line Hline.
    split; [by apply Hfree|]. split; [by apply dropCR_id, Hmap|].
    by apply Hfits, list_elem_of_In.
  - intros Hall.
    assert (Forall (fun line => strings.Count line newline = 0) data) as Hfree
      by (eapply Forall_impl; [exact Hall|]; by intros line (? & _)).
    rewrite flat_map_Split_id by done. split.
    + apply forallb_forall. intros line Hline%list_elem_of_In.
      rewrite Forall_forall in Hall. by destruct (Hall line Hline) as (_ & _ & ?).
    + symmetry. apply map_fixed_id. eapply Forall_impl; [exact Hall|].
      intros line (_ & Hcr & _). by apply dropCR_id.
Qed.

Example saved_file_read_back_demo :
  bufio.scanAll (saveToFile fullWrite ["a"; "b" +:+ String "013" ""; "c" +:+ String newline "d"])
  = (["a"; "b"; "c"; "d"], true).
Proof. by vm_compute. Qed.

Lemma fits_shorter (s t : string) :
  String.length s ≤ String.length t → bufio.fits t = true → bufio.fits s = true.
Proof. unfold bufio.fits. rewrite !N.ltb_lt. lia. Qed.

Lemma elem_of_scanAll (text t : string) :
  t ∈ fst (bufio.scanAll text) →
  strings.Count t newline = 0 ∧ bufio.fits t = true ∧
  ∃ pre post, text = pre +:+ t +:+ post.
Proof.
  unfold bufio.scanAll. intros (p & Hp & Hfits & ->)%elem_of_scanPieces.
  apply elem_of_dropFinalEmpty in Hp.
  pose proof (Split_no_sep text newline) as Hfree. rewrite Forall_forall in Hfree.
  specialize (Hfree p Hp). apply Split_elem in Hp as (pre & post & -> & _).
  destruct (dropCR_cases p) as [[_ ->]|[_ Heq]].
  - split; [done|]. split; [done|]. by exists pre, post.
  - rewrite Heq in Hfree, Hfits. rewrite Count_app_s in Hfree.
    split; [lia|]. split.
    + eapply fits_shorter; [|exact Hfits]. rewrite length_app_s. lia.
    + exists pre, (String "013" "" +:+ post). rewrite Heq at 1.
      by rewrite !app_assoc_s.
Qed.

(** X23: every sensitive word [loadWordlist] adds is a piece of the word
    list file it opened, holds no newline and is shorter than the buffer of
    the scanner; without a file it can open it adds none. *)
Theorem loadWordlist_words (open : string → option string) (wordlistFile : string)
    (defaultFile : option string) (sensitiveWords : list string) (word : string) :
  word ∈ loadWordlist open wordlistFile defaultFile sensitiveWords →
  word ∈ sensitiveWords ∨
  (strings.Count word newline = 0 ∧ bufio.fits word = true ∧
   ∃ fileName text pre post,
     (fileName = wordlistFile ∨ (wordlistFile = "" ∧ defaultFile = Some fileName)) ∧
     open fileName = Some text ∧ text = pre +:+ word +:+ post).
Proof.
  assert (∀ fileName,
    (fileName = wordlistFile ∨ (wordlistFile = "" ∧ defaultFile = Some fileName)) →
    word ∈ loadWords (open fileName) sensitiveWords →
    word ∈ sensitiveWords ∨
    (strings.Count word newline = 0 ∧ bufio.fits word = true ∧
     ∃ fileName text pre post,
       (fileName = wordlistFile ∨ (wordlistFile = "" ∧ defaultFile = Some fileName)) ∧
       open fileName = Some text ∧ text = pre +:+ word +:+ post)) as Hload.
  { intros fileName Hname. unfold loadWords.
    destruct (open fileName) as [text|] eqn:Hopen; [|by left].
    rewrite elem_of_app. intros [Hold|Hnew]; [by left|right].
    apply elem_of_scanAll in Hnew as (Hfree & Hfits & pre & post & Htext).
    split; [done|]. split; [done|]. by exists fileName, text, pre, post. }
  unfold loadWordlist. destruct (String.eqb_spec wordlistFile "") as [->|Hne]; simpl.
  - destruct defaultFile as [fileName|]; [|by left].
    apply Hload. by right.
  - apply Hload. by left.
Qed.

Lemma loadWordlist_words_witness :
  "token" ∈ loadWordlist (fun _ => Some blankWordlist) "words.txt" None [] ∧
  ("token" ∈ @nil string ∨
   (strings.Count "token" newline = 0 ∧ bufio.fits "token" = true ∧
    ∃ fileName text pre post,
      (fileName = "words.txt" ∨ ("words.txt" = "" ∧ None = Some fileName)) ∧
      (fun _ : string => Some blankWordlist) fileName = Some text ∧
      text = pre +:+ "token" +:+ post)).
Proof.
  assert ("token" ∈ loadWordlist (fun _ => Some blankWordlist) "words.txt" None [])
    as Hin by (vm_compute; apply list_elem_of_further, list_elem_of_further,
               list_elem_of_here).
  split; [exact Hin|].
  exact (loadWordlist_words (fun _ => Some blankWordlist) "words.txt" None []
           "token" Hin).
Defined.





(** ** The loop over the targets *)




Example processInputURLs_requests_demo :
  snd (processInputURLs (logged twoNet) [] (fun _ => Some
         ("https://x.com" +:+ String newline (String newline "https://x.com")))
         "urls.txt" [])
  = ["https://x.com"; "https://x.com//app.js"; "https://x.com//gone.js"; "";
     "https://x.com"; "https://x.com//app.js"; "https://x.com//gone.js"].
Proof. by vm_compute. Qed.

Lemma not_space_no_CR (s : string) :
  all_bytes not_space s = true → strings.HasSuffix s (String "013" "") = false.
Proof.
  intros Hs. destruct (strings.HasSuffix s (String "013" "")) eqn:Hcr; [|done].
  apply HasSuffix_spec in Hcr as [pre ->]. by apply all_bytes_mid in Hs.
Qed.

(** X26: the links file and the subdomains file that follow a run of
    [processURL] are read back by the scanning loop of
    [processInputURLs] as the reported entries, in order and without
    error, when each entry fits the buffer of the scanner. *)
Theorem saved_reports_read_back {World : Type}
    (fetch : string → World → option string * World)
    (sensitiveWords : list string) (targetURL : string) (w w' : World)
    (rs : ResultSet) :
  processURL fetch sensitiveWords targetURL w = (Some rs, w') →
  forallb bufio.fits (Links rs ++ Subdomains rs) = true →
  bufio.scanAll (saveToFile fullWrite (Links rs)) = (Links rs, true) ∧
  bufio.scanAll (saveToFile fullWrite (Subdomains rs)) = (Subdomains rs, true).
Proof.
  intros Hrun Hfits. apply reported_from in Hrun as (Hlinks & Hsubs & _).
  rewrite forallb_app, andb_true_iff, !forallb_forall in Hfits.
  destruct Hfits as [HfitsL HfitsS].
  assert (∀ data,
    (∀ U, U ∈ data → all_bytes not_space U = true) →
    (∀ U, In U data → bufio.fits U = true) →
    bufio.scanAll (saveToFile fullWrite data) = (data, true)) as Hback.
  { intros data Hspace Hfit. rewrite scanAll_saved.
    assert (Forall (fun line => strings.Count line newline = 0) data) as Hfree.
    { apply Forall_forall. intros U HU. by apply not_space_no_newline, Hspace. }
    rewrite flat_map_Split_id by done. apply scanPieces_ok. split.
    - by apply forallb_forall.
    - symmetry. apply map_fixed_id, Forall_forall. intros U HU.
      by apply dropCR_id, not_space_no_CR, Hspace. }
  split; apply Hback; try done.
  - intros U HU. destruct (Hlinks U HU) as [jsContent Hin].
    by eapply extractLinks_not_space.
  - intros U HU. destruct (Hsubs U HU) as [jsContent Hin].
    by eapply extractSubdomains_not_space.
Qed.

Lemma saved_reports_read_back_witness :
  processURL demoFetch ["SECRET_KEY"] "https://x.com" tt = (Some demoResult, tt) ∧
  forallb bufio.fits (Links demoResult ++ Subdomains demoResult) = true ∧
  bufio.scanAll (saveToFile fullWrite (Links demoResult)) = (Links demoResult, true) ∧
  bufio.scanAll (saveToFile fullWrite (Subdomains demoResult))
  = (Subdomains demoResult, true).
Proof.
  assert (processURL demoFetch ["SECRET_KEY"] "https://x.com" tt
          = (Some demoResult, tt)) as Hrun by (vm_compute; reflexivity).
  assert (forallb bufio.fits (Links demoResult ++ Subdomains demoResult) = true)
    as Hfits by (vm_compute; reflexivity).
  split; [exact Hrun|]. split; [exact Hfits|].
  exact (saved_reports_read_back demoFetch ["SECRET_KEY"] "https://x.com"
           tt tt demoResult Hrun Hfits).
Defined.

(** ** Two targets, one directory *)


